(** * The automated monitoring and evaluation loop of f1-MG-MRN

    A shallow embedding of

    - [src/ml/bet_simulator.py]      ([F1BetSimulator.simulate_bets]),
    - [src/ml/auto_race_evaluator.py] ([AutoRaceEvaluator]),
    - [src/ml/auto_race_monitor.py]   ([AutoF1RaceMonitor]),

    together with the properties of the profit ledger, the result-file
    watcher, the reconciler and the clock policy.

    Conventions of the embedding.

    - Python floats and ints that carry money, odds, positions, ages and
      hours are exact rationals ([Q]); a missing value (pandas [NaN]) is
      [None].  Every comparison against [NaN] is false, as in Python.
    - A [datetime] is a count of microseconds ([Z]).
    - A pandas [DataFrame] is the list of its rows, in index order; a CSV
      file holds the rows that were written to it.
    - The files the program reads and writes are fields of an explicit
      [state]; a step that can raise takes its outcome from an [env],
      and a call that an exception leaves ends in [Raises]. *)

From Stdlib Require Import List String Ascii Bool Arith ZArith QArith Qabs Lia Lqa.
From Stdlib Require Import Sorted Permutation Qround.
Import ListNotations.

Local Open Scope list_scope.

(** ** Python string operations used by the sources *)

Module PyStr.

Definition is_upper (c : ascii) : bool :=
  let n := nat_of_ascii c in (65 <=? n) && (n <=? 90).

Definition is_lower (c : ascii) : bool :=
  let n := nat_of_ascii c in (97 <=? n) && (n <=? 122).

Definition to_lower (c : ascii) : ascii :=
  if is_upper c then ascii_of_nat (nat_of_ascii c + 32) else c.

Definition to_upper (c : ascii) : ascii :=
  if is_lower c then ascii_of_nat (nat_of_ascii c - 32) else c.

(** [s.lower()] *)
Fixpoint lower (s : string) : string :=
  match s with
  | EmptyString => EmptyString
  | String c t => String (to_lower c) (lower t)
  end.

(** [s.title()]: the first cased character after an uncased one is made
    upper case, every other cased character lower case. *)
Fixpoint title_from (prev_cased : bool) (s : string) : string :=
  match s with
  | EmptyString => EmptyString
  | String c t =>
      let cased := is_upper c || is_lower c in
      String (if prev_cased then to_lower c else to_upper c)
             (title_from cased t)
  end.

Definition title (s : string) : string := title_from false s.

(** [s.replace(a, b)] for single characters. *)
Fixpoint replace (a b : ascii) (s : string) : string :=
  match s with
  | EmptyString => EmptyString
  | String c t => String (if Ascii.eqb c a then b else c) (replace a b t)
  end.

(** [sub in s] *)
Fixpoint contains (sub s : string) : bool :=
  String.prefix sub s ||
  match s with
  | EmptyString => false
  | String _ t => contains sub t
  end.

(** [x in xs] for a list of strings. *)
Definition mem (x : string) (xs : list string) : bool :=
  existsb (String.eqb x) xs.

End PyStr.

(** ** Shell-style patterns ([fnmatch], as used by [glob.glob]) *)

Module Glob.

(** One element of a translated pattern. *)
Inductive tok : Type :=
| Star                                                (* [*] *)
| AnyChar                                             (* [?] *)
| Lit (c : ascii)
| Class (negated : bool) (ranges : list (ascii * ascii)).  (* [[...]] *)

Definition chars := list ascii.

Fixpoint to_chars (s : string) : chars :=
  match s with
  | EmptyString => []
  | String c t => c :: to_chars t
  end.

Definition rbrack : ascii := "]"%char.
Definition lbrack : ascii := "["%char.
Definition bang : ascii := "!"%char.
Definition dash : ascii := "-"%char.
Definition dot : ascii := "."%char.

(** The members of a bracket expression: [a-z] is a range, any other
    character stands for itself. *)
Fixpoint class_items (fuel : nat) (cs : chars) : list (ascii * ascii) :=
  match fuel with
  | O => []
  | S fuel' =>
      match cs with
      | [] => []
      | lo :: d :: hi :: rest =>
          if Ascii.eqb d dash
          then (lo, hi) :: class_items fuel' rest
          else (lo, lo) :: class_items fuel' (d :: hi :: rest)
      | c :: rest => (c, c) :: class_items fuel' rest
      end
  end.

(** Splits [cs] at the first [rbrack]; [None] when there is none. *)
Fixpoint split_rbrack (cs : chars) : option (chars * chars) :=
  match cs with
  | [] => None
  | c :: rest =>
      if Ascii.eqb c rbrack then Some ([], rest)
      else match split_rbrack rest with
           | Some (inside, after) => Some (c :: inside, after)
           | None => None
           end
  end.

(** After an opening bracket: an optional [!], then an optional literal
    [rbrack], then everything up to the closing [rbrack]. *)
Definition parse_class (cs : chars) : option (tok * chars) :=
  let '(neg, cs1) :=
    match cs with
    | c :: rest => if Ascii.eqb c bang then (true, rest) else (false, cs)
    | [] => (false, cs)
    end in
  let '(lead, cs2) :=
    match cs1 with
    | c :: rest => if Ascii.eqb c rbrack then ([rbrack], rest) else ([], cs1)
    | [] => ([], cs1)
    end in
  match split_rbrack cs2 with
  | Some (inside, after) =>
      let body := lead ++ inside in
      Some (Class neg (class_items (List.length body) body), after)
  | None => None
  end.

Fixpoint translate_aux (fuel : nat) (cs : chars) : list tok :=
  match fuel with
  | O => []
  | S fuel' =>
      match cs with
      | [] => []
      | c :: rest =>
          if Ascii.eqb c "*"%char then Star :: translate_aux fuel' rest
          else if Ascii.eqb c "?"%char then AnyChar :: translate_aux fuel' rest
          else if Ascii.eqb c lbrack then
            match parse_class rest with
            | Some (t, after) => t :: translate_aux fuel' after
            | None => Lit c :: translate_aux fuel' rest
            end
          else Lit c :: translate_aux fuel' rest
      end
  end.

Definition translate (pat : string) : list tok :=
  let cs := to_chars pat in translate_aux (List.length cs) cs.

Definition in_range (c : ascii) (r : ascii * ascii) : bool :=
  (nat_of_ascii (fst r) <=? nat_of_ascii c) &&
  (nat_of_ascii c <=? nat_of_ascii (snd r)).

Definition tok_accepts (t : tok) (c : ascii) : bool :=
  match t with
  | Star => true
  | AnyChar => true
  | Lit d => Ascii.eqb c d
  | Class neg rs => xorb neg (existsb (in_range c) rs)
  end.

(** [match_toks ts cs]: the whole of [cs] is matched by [ts]. *)
Fixpoint match_toks (ts : list tok) : chars -> bool :=
  match ts with
  | [] => fun cs => match cs with [] => true | _ :: _ => false end
  | Star :: ts' =>
      let k := match_toks ts' in
      fix star (cs : chars) : bool :=
        k cs || match cs with [] => false | _ :: rest => star rest end
  | t :: ts' =>
      let k := match_toks ts' in
      fun cs => match cs with
                | [] => false
                | c :: rest => tok_accepts t c && k rest
                end
  end.

(** [fnmatch.fnmatchcase(name, pat)] *)
Definition fnmatch (name pat : string) : bool :=
  match_toks (translate pat) (to_chars name).

Definition starts_with_dot (s : string) : bool :=
  match s with
  | String c _ => Ascii.eqb c dot
  | EmptyString => false
  end.

(** A directory entry is listed by [glob.glob(os.path.join(dir, pat))]
    when it matches [pat], letter case included; a name that starts with
    a dot is only listed for a pattern that starts with a dot. *)
Definition glob_match (pat name : string) : bool :=
  fnmatch name pat && (negb (starts_with_dot name) || starts_with_dot pat).

End Glob.

(** ** Rows of the tables *)

(** A row of [betting_recommendations.csv]
    (columns [Driver], [Quote], [Predicted_Probability], [EV],
    [Race_Name]). *)
Record bet_row : Type := {
  b_Driver : string;
  b_Quote : Q;
  b_Predicted_Probability : Q;
  b_EV : Q;
  b_Race_Name : string
}.

(** A row of a race results file.  [r_Actual_Position = None] is a
    missing position. *)
Record res_row : Type := {
  r_Driver : string;
  r_Actual_Position : option Q;
  r_Race_Name : string
}.

Inductive outcome : Type := WIN | LOSS.

(** An entry of [simulation_log], which is also a row of the master log. *)
Record log_row : Type := {
  Race_Name : string;
  Driver : string;
  Quote : Q;
  Predicted_Probability : Q;
  EV : Q;
  Actual_Position : option Q;
  Bet_Amount : Q;
  Outcome : outcome;
  Profit_Loss : Q;
  Success_Threshold : Q
}.

(** ** The pandas operations used by the sources *)

Module Pandas.

(** [x <= y] on a column value that may be missing. *)
Definition le_nan (x : option Q) (y : Q) : bool :=
  match x with
  | Some v => Qle_bool v y
  | None => false
  end.

(** [Series.unique()]: distinct values in order of first appearance. *)
Fixpoint unique (xs : list string) : list string :=
  match xs with
  | [] => []
  | x :: t => x :: filter (fun y => negb (String.eqb y x)) (unique t)
  end.

(** Equality of two rows on [subset=['Race_Name', 'Driver']]. *)
Definition same_key (a b : log_row) : bool :=
  String.eqb (Race_Name a) (Race_Name b) && String.eqb (Driver a) (Driver b).

(** [df.drop_duplicates(subset=['Race_Name', 'Driver'], keep='last')]:
    a row stays when no later row has its key; the rows that stay keep
    their relative order. *)
Fixpoint drop_duplicates_last (df : list log_row) : list log_row :=
  match df with
  | [] => []
  | r :: t =>
      if existsb (same_key r) t
      then drop_duplicates_last t
      else r :: drop_duplicates_last t
  end.

(** Insertion of a key into a list sorted by [String.leb], without
    repetition. *)
Fixpoint insert_key (k : string) (ks : list string) : list string :=
  match ks with
  | [] => [k]
  | h :: t =>
      if String.eqb k h then ks
      else if String.leb k h then k :: ks
      else h :: insert_key k t
  end.

(** The group keys of [df.groupby('Race_Name')]: [groupby] sorts the
    keys ([sort=True] is its default). *)
Definition group_keys (df : list log_row) : list string :=
  fold_right insert_key [] (map Race_Name df).

Fixpoint Qsum (xs : list Q) : Q :=
  match xs with
  | [] => 0
  | x :: t => x + Qsum t
  end.

(** The sum of [Profit_Loss] over the rows of one race. *)
Definition group_sum (df : list log_row) (race : string) : Q :=
  Qsum (map Profit_Loss
            (filter (fun r => String.eqb (Race_Name r) race) df)).

(** [df.groupby('Race_Name')['Profit_Loss'].sum()] *)
Definition groupby_sum (df : list log_row) : list (string * Q) :=
  map (fun k => (k, group_sum df k)) (group_keys df).

(** [Series.cumsum()], started from [acc]. *)
Fixpoint cumsum_from (acc : Q) (s : list (string * Q)) : list (string * Q) :=
  match s with
  | [] => []
  | (k, v) :: t => (k, acc + v) :: cumsum_from (acc + v) t
  end.

Definition cumsum (s : list (string * Q)) : list (string * Q) :=
  match s with
  | [] => []
  | (k, v) :: t => (k, v) :: cumsum_from v t
  end.

End Pandas.

(** ** [F1BetSimulator] ([src/ml/bet_simulator.py]) *)

Module BetSimulator.

Record simulator : Type := {
  starting_capital : Q;
  bet_amount : Q;
  betting_df : list bet_row;
  results_df : list res_row
}.

(** [pd.merge(betting_df, results_df, on=['Driver', 'Race_Name'],
    how='inner')]: the pairs of rows with equal keys, in the order of
    the left table, then of the right one. *)
Definition joins (b : bet_row) (r : res_row) : bool :=
  String.eqb (b_Driver b) (r_Driver r) &&
  String.eqb (b_Race_Name b) (r_Race_Name r).

Definition merge (bs : list bet_row) (rs : list res_row)
  : list (bet_row * res_row) :=
  flat_map (fun b => map (fun r => (b, r)) (filter (joins b) rs)) bs.

(** The body of the loop over [race_data.iterrows()]: one settled bet. *)
Definition settle (bet : Q) (top_n_success : Q) (race_name : string)
           (row : bet_row * res_row) : log_row :=
  let '(b, r) := row in
  let win := Pandas.le_nan (r_Actual_Position r) top_n_success in
  {| Race_Name := race_name;
     Driver := b_Driver b;
     Quote := b_Quote b;
     Predicted_Probability := b_Predicted_Probability b;
     EV := b_EV b;
     Actual_Position := r_Actual_Position r;
     Bet_Amount := bet;
     Outcome := if win then WIN else LOSS;
     Profit_Loss := if win then (b_Quote b * bet) - bet else - bet;
     Success_Threshold := top_n_success |}.

Definition race_of (row : bet_row * res_row) : string :=
  b_Race_Name (fst row).

(** The rows [merged_df[merged_df['Race_Name'] == race_name]]. *)
Definition race_data (merged : list (bet_row * res_row)) (race_name : string)
  : list (bet_row * res_row) :=
  filter (fun row => String.eqb (race_of row) race_name) merged.

(** The entries logged for one race, in the order of [iterrows()]. *)
Definition race_entries (s : simulator) (top_n_success : Q)
           (race_name : string) : list log_row :=
  map (settle (bet_amount s) top_n_success race_name)
      (race_data (merge (betting_df s) (results_df s)) race_name).

(** The races of the outer loop, [merged_df['Race_Name'].unique()]. *)
Definition races (s : simulator) : list string :=
  Pandas.unique (map race_of (merge (betting_df s) (results_df s))).

(** [simulate_bets]: the entries appended to [simulation_log] (empty
    when the simulator is created) ... *)
Definition simulation_log (s : simulator) (top_n_success : Q)
  : list log_row :=
  flat_map (race_entries s top_n_success) (races s).

(** ... and the returned [cumulative_profit], the sum over the races of
    each race's [race_profit]. *)
Definition simulate_bets (s : simulator) (top_n_success : Q) : Q :=
  Pandas.Qsum
    (map (fun race_name =>
            Pandas.Qsum (map Profit_Loss (race_entries s top_n_success race_name)))
         (races s)).

End BetSimulator.

(** ** [AutoRaceEvaluator] ([src/ml/auto_race_evaluator.py]) *)

Module Evaluator.

Import PyStr.

(** The entries of the configuration that the evaluator reads. *)
Record config : Type := {
  bet_amount : Q;
  starting_capital : Q;
  success_threshold : Q;
  file_patterns : list string;
  min_file_age_seconds : Q;
  enable_model_retraining : bool;
  model_retrain_threshold : Z;
  notification_enabled : bool
}.

(** [default_config] of [load_config]. *)
Definition default_config : config := {|
  bet_amount := 10;
  starting_capital := 1000;
  success_threshold := 3;
  file_patterns :=
    ["*results*.csv"%string; "*race_results*.csv"%string;
     "*actual*.csv"%string];
  min_file_age_seconds := 30;
  enable_model_retraining := false;
  model_retrain_threshold := 5;
  notification_enabled := true
|}.

(** What [pd.read_csv] makes of a results file: it raises, or it gives
    a table.  A field of a row whose column is not in [columns] is not
    part of the table. *)
Inductive csv : Type :=
| Unreadable
| Table (columns : list string) (rows : list res_row).

(** What [pd.read_csv] makes of the recommendations file: it raises (an
    empty or garbled file), or it gives a table.  The column
    [Race_Name] is read by [process_new_race_results] itself; the other
    columns are read by the simulator. *)
Inductive bets_csv : Type :=
| UnreadableBets
| Bets (columns : list string) (rows : list bet_row).

(** How a call ends: it returns a value, or an exception leaves it. *)
Inductive completion (A : Type) : Type :=
| Returns (value : A)
| Raises.

Arguments Returns {A} value.
Arguments Raises {A}.

(** An entry of the watch directory; [mtime] is [os.path.getmtime], in
    seconds. *)
Record file : Type := {
  file_name : string;
  mtime : Q;
  content : csv
}.

(** The files of the evaluator and its in-memory registry.  A file that
    does not exist is [None].  A path inside the watch directory is
    identified with its base name. *)
Record state : Type := {
  watch_directory : option (list file);
  betting_recommendations_file : option bets_csv;
  master_log_file : option (list log_row);
  profit_graph_file : option (list (string * Q));
  archive_directory : list (string * csv);
  processed_races : list string;
  processed_races_file : option (list string)
}.

(** The part of the surroundings that one call of
    [process_new_race_results] observes: the clock, and whether each
    step that touches the file system or the plotting library completes
    or raises (for whatever reason: a file or directory that cannot be
    read or written, a table without the columns that the simulator
    expects, a value of the wrong type).  A step that raises is taken
    to leave the files as they were.  Writing to the log and to the
    standard output is taken to complete. *)
Record env : Type := {
  stamp_minute : string;      (* [datetime.now().strftime("%Y%m%d_%H%M")] *)
  stamp_second : string;      (* [datetime.now().strftime("%Y%m%d_%H%M%S")] *)
  temp_files_ok : bool;       (* the temporary files are named and written *)
  load_ok : bool;             (* the simulator loads its inputs and settles *)
  master_log_ok : bool;       (* the master log is read, merged, written *)
  savefig_ok : bool;          (* the series is computed, drawn and saved *)
  archive_dir_ok : bool;      (* [os.makedirs(archive_dir, exist_ok=True)] *)
  move_ok : bool;             (* [shutil.move] *)
  save_registry_ok : bool;    (* [processed_races.json] is written *)
  cleanup_ok : bool           (* the temporary files are removed *)
}.

(** The effects of a call, in program order. *)
Inductive event : Type :=
| Processing (file_path : string)
| LedgerAppend (entries : nat)
| GraphSaved
| GraphFailed
| Archived (file_path archived_name : string)
| ArchiveFailed (file_path : string)
| Registered (file_name : string).

Definition set_watch_directory (w : option (list file)) (st : state) : state :=
  {| watch_directory := w;
     betting_recommendations_file := betting_recommendations_file st;
     master_log_file := master_log_file st;
     profit_graph_file := profit_graph_file st;
     archive_directory := archive_directory st;
     processed_races := processed_races st;
     processed_races_file := processed_races_file st |}.

Definition set_master_log_file (l : option (list log_row)) (st : state) : state :=
  {| watch_directory := watch_directory st;
     betting_recommendations_file := betting_recommendations_file st;
     master_log_file := l;
     profit_graph_file := profit_graph_file st;
     archive_directory := archive_directory st;
     processed_races := processed_races st;
     processed_races_file := processed_races_file st |}.

Definition set_profit_graph_file (g : option (list (string * Q))) (st : state) : state :=
  {| watch_directory := watch_directory st;
     betting_recommendations_file := betting_recommendations_file st;
     master_log_file := master_log_file st;
     profit_graph_file := g;
     archive_directory := archive_directory st;
     processed_races := processed_races st;
     processed_races_file := processed_races_file st |}.

Definition set_archive_directory (a : list (string * csv)) (st : state) : state :=
  {| watch_directory := watch_directory st;
     betting_recommendations_file := betting_recommendations_file st;
     master_log_file := master_log_file st;
     profit_graph_file := profit_graph_file st;
     archive_directory := a;
     processed_races := processed_races st;
     processed_races_file := processed_races_file st |}.

Definition set_processed_races (p : list string) (st : state) : state :=
  {| watch_directory := watch_directory st;
     betting_recommendations_file := betting_recommendations_file st;
     master_log_file := master_log_file st;
     profit_graph_file := profit_graph_file st;
     archive_directory := archive_directory st;
     processed_races := p;
     processed_races_file := processed_races_file st |}.

Definition set_processed_races_file (p : option (list string)) (st : state) : state :=
  {| watch_directory := watch_directory st;
     betting_recommendations_file := betting_recommendations_file st;
     master_log_file := master_log_file st;
     profit_graph_file := profit_graph_file st;
     archive_directory := archive_directory st;
     processed_races := processed_races st;
     processed_races_file := p |}.

(** *** [detect_new_race_files] *)

(** The inner loop, over [glob.glob(os.path.join(watch_dir, pattern))]:
    the entries that match [pattern], are old enough at time [now] and
    are not in [processed_races]. *)
Definition candidate (min_age : Q) (now : Q) (processed : list string)
           (pattern : string) (f : file) : bool :=
  Glob.glob_match pattern (file_name f) &&
  Qle_bool min_age (now - mtime f) &&
  negb (mem (file_name f) processed).

Definition detect_new_race_files (cfg : config) (now : Q) (st : state)
  : list string * state :=
  match watch_directory st with
  | None => ([], set_watch_directory (Some []) st)
  | Some entries =>
      (flat_map
         (fun pattern =>
            map file_name
                (filter (candidate (min_file_age_seconds cfg) now
                                   (processed_races st) pattern)
                        entries))
         (file_patterns cfg),
       st)
  end.

(** *** Reading a results file *)

Definition lookup (entries : list file) (file_path : string) : option file :=
  find (fun f => String.eqb (file_name f) file_path) entries.

(** [pd.read_csv(file_path)]; [None] when it raises (no such file, or a
    file that cannot be parsed). *)
Definition read_csv (st : state) (file_path : string)
  : option (list string * list res_row) :=
  match watch_directory st with
  | None => None
  | Some entries =>
      match lookup entries file_path with
      | Some f =>
          match content f with
          | Table columns rows => Some (columns, rows)
          | Unreadable => None
          end
      | None => None
      end
  end.

Definition required_columns : list string :=
  ["Driver"%string; "Actual_Position"%string].

(** [validate_race_results_file]: the first component of its result
    (the second is the message that is logged). *)
Definition validate_race_results_file (st : state) (file_path : string) : bool :=
  match read_csv st file_path with
  | Some (columns, _) =>
      let missing_columns :=
        filter (fun col => negb (mem col columns)) required_columns in
      match missing_columns with
      | [] => true
      | _ :: _ => false
      end
  | None => false
  end.

(** *** [extract_race_name_from_file] *)

Definition race_indicators : list string :=
  ["bahrain"; "saudi"; "australia"; "japan"; "china"; "miami"; "spain";
   "monaco"; "canada"; "austria"; "britain"; "hungary"; "belgium";
   "netherlands"; "italy"; "singapore"; "russia"; "turkey"; "usa";
   "mexico"; "brazil"; "qatar"; "abu_dhabi"]%string.

Definition fallback_race_name (e : env) : string :=
  ("Race_" ++ stamp_minute e)%string.

Definition extract_race_name_from_file (e : env) (st : state)
           (file_path : string) : string :=
  match find (fun indicator => contains (lower indicator) (lower file_path))
             race_indicators with
  | Some indicator => (title indicator ++ " GP")%string
  | None =>
      match read_csv st file_path with
      | Some (columns, rows) =>
          if mem "Race_Name" columns then
            match Pandas.unique (map r_Race_Name rows) with
            | [race_name] => race_name
            | _ => fallback_race_name e
            end
          else fallback_race_name e
      | None => fallback_race_name e
      end
  end.

(** *** [update_master_log] *)

Definition existing_log (st : state) : list log_row :=
  match master_log_file st with
  | Some rows => rows
  | None => []
  end.

(** The new content of the master log: the old rows followed by the new
    ones, without the rows that a later row replaces. *)
Definition updated_log (existing new_data : list log_row) : list log_row :=
  Pandas.drop_duplicates_last (existing ++ new_data).

(** [None] when the call raises. *)
Definition update_master_log (e : env) (st : state)
           (new_simulation_data : list log_row) : option (state * list event) :=
  if master_log_ok e then
    Some (set_master_log_file
            (Some (updated_log (existing_log st) new_simulation_data)) st,
          [LedgerAppend (List.length new_simulation_data)])
  else None.

(** *** [update_profit_graph] *)

(** [total_capitals]: the cumulative sum of the profit of each race,
    plus the starting capital. *)
Definition total_capitals (cfg : config) (log_df : list log_row)
  : list (string * Q) :=
  map (fun kv => (fst kv, snd kv + starting_capital cfg))
      (Pandas.cumsum (Pandas.groupby_sum log_df)).

(** The function catches what it raises. *)
Definition update_profit_graph (cfg : config) (e : env) (st : state)
  : state * list event :=
  match master_log_file st with
  | None => (st, [])
  | Some log_df =>
      if savefig_ok e
      then (set_profit_graph_file (Some (total_capitals cfg log_df)) st,
            [GraphSaved])
      else (st, [GraphFailed])
  end.

(** *** [archive_processed_file] *)

Definition archived_name (e : env) (file_path race_name : string) : string :=
  (stamp_second e ++ "_" ++ replace " " "_" race_name ++ "_" ++ file_path)%string.

Definition remove_file (file_path : string) (entries : list file) : list file :=
  filter (fun f => negb (String.eqb (file_name f) file_path)) entries.

(** [os.makedirs(archive_dir, exist_ok=True)] comes before the [try]
    of the function: when it raises, so does the function ([None]), and
    nothing was moved.  The [try] catches what [shutil.move] raises. *)
Definition archive_processed_file (e : env) (st : state)
           (file_path race_name : string) : option (state * list event) :=
  if negb (archive_dir_ok e) then None
  else
    match watch_directory st with
    | Some entries =>
        match lookup entries file_path with
        | Some f =>
            if move_ok e then
              Some (set_archive_directory
                      ((archived_name e file_path race_name, content f)
                         :: archive_directory st)
                      (set_watch_directory
                         (Some (remove_file file_path entries)) st),
                    [Archived file_path (archived_name e file_path race_name)])
            else Some (st, [ArchiveFailed file_path])
        | None => Some (st, [ArchiveFailed file_path])
        end
    | None => Some (st, [ArchiveFailed file_path])
    end.

(** *** [save_processed_races]; [None] when the write raises. *)

Definition save_processed_races (e : env) (st : state) : option state :=
  if save_registry_ok e
  then Some (set_processed_races_file (Some (processed_races st)) st)
  else None.

(** *** [check_model_retraining]: [false] when
    [len(processed_races) % threshold] raises. *)

Definition check_model_retraining (cfg : config) (st : state) : bool :=
  negb (Z.eqb (model_retrain_threshold cfg) 0).

(** *** [process_new_race_results] *)

Definition with_race_name (race_name : string) (r : res_row) : res_row :=
  {| r_Driver := r_Driver r;
     r_Actual_Position := r_Actual_Position r;
     r_Race_Name := race_name |}.

(** The rows given to the simulator: the recommendations of the race
    ([betting_df[betting_df['Race_Name'] == race_name]]), and the
    results, named after the race when the file has no [Race_Name]
    column. *)
Definition make_simulator (cfg : config) (race_name : string)
           (betting_df : list bet_row)
           (columns : list string) (rows : list res_row)
  : BetSimulator.simulator :=
  {| BetSimulator.starting_capital := starting_capital cfg;
     BetSimulator.bet_amount := bet_amount cfg;
     BetSimulator.betting_df :=
       filter (fun b => String.eqb (b_Race_Name b) race_name) betting_df;
     BetSimulator.results_df :=
       if mem "Race_Name" columns then rows
       else map (with_race_name race_name) rows |}.

(** The result is how the call ends, the state it leaves and the
    effects it performed.  The statements between the validation and
    the [try] are not guarded: reading the results again, reading the
    recommendations, selecting their column [Race_Name] and writing the
    two temporary files raise out of the call.  Inside the [try] every
    exception is caught and turned into [False].  The [finally] removes
    the temporary files, which are not part of the state; when the
    removal raises, that exception replaces the returned value. *)
Definition process_new_race_results (cfg : config) (e : env) (st : state)
           (file_path : string) : completion bool * state * list event :=
  let t0 := [Processing file_path] in
  if negb (validate_race_results_file st file_path)
  then (Returns false, st, t0)
  else
    let race_name := extract_race_name_from_file e st file_path in
    match read_csv st file_path with
    | None => (Raises, st, t0)
    | Some (columns, rows) =>
        match betting_recommendations_file st with
        | None => (Returns false, st, t0)
        | Some UnreadableBets => (Raises, st, t0)
        | Some (Bets bet_columns betting_df) =>
            if negb (mem "Race_Name" bet_columns) then (Raises, st, t0)
            else if negb (temp_files_ok e) then (Raises, st, t0)
            else
              let simulator :=
                make_simulator cfg race_name betting_df columns rows in
              let '(b, st', t) :=
                if negb (load_ok e) then (false, st, t0)
                else
                  let new_data :=
                    BetSimulator.simulation_log simulator
                                                (success_threshold cfg) in
                  match update_master_log e st new_data with
                  | None => (false, st, t0)
                  | Some (st1, t1) =>
                      let '(st2, t2) := update_profit_graph cfg e st1 in
                      match archive_processed_file e st2 file_path race_name with
                      | None => (false, st2, t0 ++ t1 ++ t2)
                      | Some (st3, t3) =>
                          let st4 :=
                            set_processed_races
                              (processed_races st3 ++ [file_path]) st3 in
                          let t4 :=
                            t0 ++ t1 ++ t2 ++ t3 ++ [Registered file_path] in
                          match save_processed_races e st4 with
                          | None => (false, st4, t4)
                          | Some st5 =>
                              if enable_model_retraining cfg
                              then (check_model_retraining cfg st5, st5, t4)
                              else (true, st5, t4)
                          end
                      end
                  end in
              if cleanup_ok e then (Returns b, st', t) else (Raises, st', t)
        end
    end.

(** *** [run_single_check] *)

(** The loop over [new_files]; [envs i] is what the [i]-th call of the
    check observes.  The loop has no [try]: a call that raises ends the
    check, and the files after it are not looked at. *)
Fixpoint process_files (cfg : config) (envs : nat -> env) (i : nat)
         (new_files : list string) (st : state)
  : completion nat * state * list event :=
  match new_files with
  | [] => (Returns O, st, [])
  | file_path :: rest =>
      match process_new_race_results cfg (envs i) st file_path with
      | (Raises, st1, t1) => (Raises, st1, t1)
      | (Returns ok, st1, t1) =>
          let '(count, st2, t2) := process_files cfg envs (S i) rest st1 in
          (match count with
           | Returns n => Returns (if ok then S n else n)
           | Raises => Raises
           end,
           st2, t1 ++ t2)
      end
  end.

Definition run_single_check (cfg : config) (envs : nat -> env) (now : Q)
           (st : state) : completion nat * state * list event :=
  let '(new_files, st0) := detect_new_race_files cfg now st in
  process_files cfg envs O new_files st0.

End Evaluator.

(** ** [AutoF1RaceMonitor] ([src/ml/auto_race_monitor.py]) *)

Module Monitor.

(** The entries of the configuration that the clock policy reads. *)
Record config : Type := {
  odds_fetch_hours_before_race : list Q;
  prediction_hours_before_race : Q;
  auto_process_results_hours_after_race : Q
}.

Definition default_config : config := {|
  odds_fetch_hours_before_race := [72; 48; 24; 12; 6; 2];
  prediction_hours_before_race := 24;
  auto_process_results_hours_after_race := 4
|}.

(** What [datetime.fromisoformat(race_date.replace('Z', '+00:00'))]
    makes of a stored date: a datetime without a UTC offset, one with
    an offset (a trailing [Z] gives one), or a [ValueError]. *)
Inductive parsed_date : Type :=
| Naive (t : Z)
| Aware (t : Z)
| Invalid.

(** An entry of [race_schedule.json]; [race_date = None] is a [null] or
    empty date. *)
Record race : Type := {
  race_name : string;
  race_date : option parsed_date;
  round_number : Z
}.

(** The loop of [get_next_race] that collects [upcoming_races]; [None]
    when it raises.  [now] is [datetime.now()], which has no UTC
    offset: comparing it with a datetime that has one raises
    [TypeError]. *)
Fixpoint upcoming_races (now : Z) (races : list race)
  : option (list (race * Z)) :=
  match races with
  | [] => Some []
  | r :: rest =>
      match race_date r with
      | None => upcoming_races now rest
      | Some Invalid => None
      | Some (Aware _) => None
      | Some (Naive race_time) =>
          match upcoming_races now rest with
          | Some l =>
              Some (if Z.ltb now race_time then (r, race_time) :: l else l)
          | None => None
          end
      end
  end.

(** [list.sort(key=lambda x: x[1])]: a stable sort. *)
Fixpoint insert_by_time (x : race * Z) (l : list (race * Z))
  : list (race * Z) :=
  match l with
  | [] => [x]
  | y :: t =>
      if Z.leb (snd x) (snd y) then x :: y :: t
      else y :: insert_by_time x t
  end.

Definition sort_by_time (l : list (race * Z)) : list (race * Z) :=
  fold_right insert_by_time [] l.

(** [get_next_race], on the loaded schedule; [None] is the pair
    [(None, None)], which is also what the [except] branch returns. *)
Definition get_next_race (races : list race) (now : Z) : option (race * Z) :=
  match upcoming_races now races with
  | Some upcoming =>
      match sort_by_time upcoming with
      | first :: _ => Some first
      | [] => None
      end
  | None => None
  end.

(** [(race_time - now).total_seconds() / 3600] *)
Definition hours_until_race (race_time now : Z) : Q :=
  inject_Z (race_time - now) / 1000000 / 3600.

Definition should_fetch_odds (cfg : config) (race_time now : Z) : bool :=
  existsb
    (fun fetch_time =>
       Qle_bool (Qabs (hours_until_race race_time now - fetch_time)) 1)
    (odds_fetch_hours_before_race cfg).

Definition should_generate_predictions (cfg : config) (race_time now : Z)
  : bool :=
  Qle_bool
    (Qabs (hours_until_race race_time now - prediction_hours_before_race cfg))
    1.

(** One hour, and a tenth of an hour, in microseconds. *)
Definition hour : Z := 3600000000.
Definition tenth_of_hour : Z := 360000000.

End Monitor.

(** ** Vocabulary for the statements about the evaluator *)

Module Terms.

Import Pandas.

(** The key of a row, [(Race_Name, Driver)]. *)
Definition key (r : log_row) : string * string := (Race_Name r, Driver r).

(** The last row of [df] whose key is [k]. *)
Fixpoint last_with_key (k : string * string) (df : list log_row)
  : option log_row :=
  match df with
  | [] => None
  | r :: t =>
      match last_with_key k t with
      | Some x => Some x
      | None =>
          if String.eqb (Race_Name r) (fst k) && String.eqb (Driver r) (snd k)
          then Some r else None
      end
  end.

(** The key of [r] does not occur in [n]. *)
Definition not_in (n : list log_row) (r : log_row) : bool :=
  negb (existsb (same_key r) n).

(** A sequence of calls of [update_master_log], each with its own
    surroundings; a call that raises leaves the log as it was. *)
Fixpoint appends (st : Evaluator.state)
         (batches : list (Evaluator.env * list log_row)) : Evaluator.state :=
  match batches with
  | [] => st
  | (e, new_data) :: rest =>
      match Evaluator.update_master_log e st new_data with
      | Some (st1, _) => appends st1 rest
      | None => appends st rest
      end
  end.

(** The rows of the batches whose call did not raise, in the order of
    the calls. *)
Definition appended (batches : list (Evaluator.env * list log_row))
  : list log_row :=
  flat_map
    (fun b => if Evaluator.master_log_ok (fst b) then snd b else [])
    batches.



(** The rows that [process_new_race_results] hands to
    [update_master_log] when it gets that far. *)
Definition new_data (cfg : Evaluator.config) (e : Evaluator.env)
           (st : Evaluator.state) (file_path : string)
           (betting_df : list bet_row)
           (columns : list string) (rows : list res_row) : list log_row :=
  BetSimulator.simulation_log
    (Evaluator.make_simulator cfg
       (Evaluator.extract_race_name_from_file e st file_path)
       betting_df columns rows)
    (Evaluator.success_threshold cfg).

(** The value that a call returns, the state it leaves, its effects. *)
Definition returned {A : Type}
           (x : A * Evaluator.state * list Evaluator.event) : A :=
  fst (fst x).

Definition state_after {A : Type}
           (x : A * Evaluator.state * list Evaluator.event)
  : Evaluator.state := snd (fst x).

Definition effects_of {A : Type}
           (x : A * Evaluator.state * list Evaluator.event)
  : list Evaluator.event := snd x.

(** The order in which [groupby] puts the race names. *)
Definition leb_true (a b : string) : Prop := String.leb a b = true.

(** The entries of the watch directory (none when it does not exist). *)
Definition watched (st : Evaluator.state) : list Evaluator.file :=
  match Evaluator.watch_directory st with
  | Some entries => entries
  | None => []
  end.

End Terms.

(** ** Vocabulary for the statements about the schedule *)

Module Schedule.

Import Monitor.

(** The first element of a list that no other element precedes in
    time: what a stable sort puts first. *)
Fixpoint earliest (l : list (race * Z)) : option (race * Z) :=
  match l with
  | [] => None
  | x :: t =>
      match earliest t with
      | None => Some x
      | Some y => if Z.leb (snd x) (snd y) then Some x else Some y
      end
  end.

(** Every date of the schedule is absent or without a UTC offset. *)
Definition all_naive (races : list race) : Prop :=
  forall r, In r races ->
            race_date r = None \/ exists t, race_date r = Some (Naive t).

(** [r] starts at [t], after [now]. *)
Definition starts_after (now : Z) (r : race) (t : Z) : Prop :=
  race_date r = Some (Naive t) /\ (now < t)%Z.

End Schedule.

(** ** Sample data *)

Module Samples.

Import Evaluator.

Local Open Scope string_scope.

(** Surroundings in which every step completes. *)
Definition env_ok : env := {|
  stamp_minute := "20250316_1800";
  stamp_second := "20250316_180000";
  temp_files_ok := true;
  load_ok := true;
  master_log_ok := true;
  savefig_ok := true;
  archive_dir_ok := true;
  move_ok := true;
  save_registry_ok := true;
  cleanup_ok := true
|}.

(** The same, except that saving the graph raises. *)
Definition env_graph_fails : env := {|
  stamp_minute := "20250316_1800";
  stamp_second := "20250316_180000";
  temp_files_ok := true;
  load_ok := true;
  master_log_ok := true;
  savefig_ok := false;
  archive_dir_ok := true;
  move_ok := true;
  save_registry_ok := true;
  cleanup_ok := true
|}.

(** The same as [env_ok], except that the move to the archive raises. *)
Definition env_move_fails : env := {|
  stamp_minute := "20250316_1800";
  stamp_second := "20250316_180000";
  temp_files_ok := true;
  load_ok := true;
  master_log_ok := true;
  savefig_ok := true;
  archive_dir_ok := true;
  move_ok := false;
  save_registry_ok := true;
  cleanup_ok := true
|}.

Definition bet (driver race_name : string) (quote : Q) : bet_row := {|
  b_Driver := driver;
  b_Quote := quote;
  b_Predicted_Probability := 1 # 4;
  b_EV := 1 # 4;
  b_Race_Name := race_name
|}.

Definition result (driver : string) (position : Q) : res_row := {|
  r_Driver := driver;
  r_Actual_Position := Some position;
  r_Race_Name := ""
|}.

Definition bahrain_bets : list bet_row :=
  [bet "Max Verstappen" "Bahrain GP" 5; bet "Lando Norris" "Bahrain GP" 5].

(** The columns that [load_betting_recommendations] expects. *)
Definition bet_columns : list string :=
  ["Driver"; "Quote"; "Predicted_Probability"; "EV"; "Race_Name"].

(** A results file without a [Race_Name] column. *)
Definition bahrain_results : csv :=
  Table ["Driver"; "Actual_Position"]
        [result "Max Verstappen" 2; result "Lando Norris" 5].

(** A results file without the [Actual_Position] column. *)
Definition broken_results : csv :=
  Table ["Driver"; "Position"] [result "Max Verstappen" 2].

Definition state_with (entries : list file) : state := {|
  watch_directory := Some entries;
  betting_recommendations_file := Some (Bets bet_columns bahrain_bets);
  master_log_file := None;
  profit_graph_file := None;
  archive_directory := [];
  processed_races := [];
  processed_races_file := None
|}.

(** One results file, written at time 0. *)
Definition bahrain_state : state :=
  state_with
    [{| file_name := "bahrain_results.csv"; mtime := 0;
        content := bahrain_results |}].

Definition broken_state : state :=
  state_with
    [{| file_name := "bahrain_results.csv"; mtime := 0;
        content := broken_results |}].

(** A file whose name matches two of the default patterns. *)
Definition race_results_state : state :=
  state_with
    [{| file_name := "bahrain_race_results.csv"; mtime := 0;
        content := bahrain_results |}].

(** At time 100, a file that is 10 seconds old and one that is 60
    seconds old. *)
Definition two_files_state : state :=
  state_with
    [{| file_name := "young_results.csv"; mtime := 90;
        content := bahrain_results |};
     {| file_name := "old_results.csv"; mtime := 40;
        content := bahrain_results |}].

(** A settled bet. *)
Definition settled (race_name driver : string) (position : Q)
           (result : outcome) (profit : Q) : log_row := {|
  Race_Name := race_name;
  Driver := driver;
  Quote := 5;
  Predicted_Probability := 1 # 4;
  EV := 1 # 4;
  Actual_Position := Some position;
  Bet_Amount := 10;
  Outcome := result;
  Profit_Loss := profit;
  Success_Threshold := 3
|}.

(** A master log after three races, processed in the order in which
    they were run. *)
Definition three_races_log : list log_row :=
  [settled "Bahrain GP" "Max Verstappen" 2 WIN 40;
   settled "Saudi GP" "Max Verstappen" 5 LOSS (-10);
   settled "Australia GP" "Max Verstappen" 1 WIN 40].

(** A schedule whose only date was stored with a UTC designator,
    ["2025-03-16T15:00:00Z"], and a [now] eleven days before it
    (microseconds since 1970). *)
Definition utc_schedule : list Monitor.race :=
  [{| Monitor.race_name := "Bahrain Grand Prix";
      Monitor.race_date := Some (Monitor.Aware 1742137200000000);
      Monitor.round_number := 1 |}].

Definition early_march : Z := 1741186800000000.

(** The same race with a date without offset, after a race that is
    over and next to a race that starts at the same time. *)
Definition naive_schedule : list Monitor.race :=
  [{| Monitor.race_name := "Australian Grand Prix";
      Monitor.race_date := Some (Monitor.Naive 1740000000000000);
      Monitor.round_number := 1 |};
   {| Monitor.race_name := "Bahrain Grand Prix";
      Monitor.race_date := Some (Monitor.Naive 1742137200000000);
      Monitor.round_number := 2 |};
   {| Monitor.race_name := "Saudi Arabian Grand Prix";
      Monitor.race_date := Some (Monitor.Naive 1742137200000000);
      Monitor.round_number := 3 |}].

(** A race start, ["2025-03-16T15:00:00"]. *)
Definition race_start : Z := 1742137200000000.

(** A row, and the row of a corrected results file that replaces it. *)
Definition reprocessed_batches : list (env * list log_row) :=
  [(env_ok, [settled "Bahrain GP" "Max Verstappen" 5 LOSS (-10)]);
   (env_ok, [settled "Bahrain GP" "Max Verstappen" 2 WIN 40])].






End Samples.

(** ** Start-up: [load_config] and [load_processed_races] *)

Module Startup.

(** A JSON value, as [json.load] returns it. *)
#[warnings="-register-all"]
Inductive json : Type :=
| JNull
| JBool (b : bool)
| JNum (q : Q)
| JStr (s : string)
| JList (items : list json)
| JObj (members : list (string * json)).

(** A Python [dict] with string keys, in insertion order. *)
Definition dict : Type := list (string * json).

(** [d.get(k)]: [None] when [k] is not a key. *)
Fixpoint get (d : dict) (k : string) : option json :=
  match d with
  | [] => None
  | (k', v) :: rest => if String.eqb k' k then Some v else get rest k
  end.

(** [k in d] *)
Definition has_key (d : dict) (k : string) : bool :=
  match get d k with
  | Some _ => true
  | None => false
  end.

(** [d[k] = v]: the value of an existing key is replaced where it is, a
    new key goes to the end. *)
Fixpoint setitem (d : dict) (k : string) (v : json) : dict :=
  match d with
  | [] => [(k, v)]
  | (k', v') :: rest =>
      if String.eqb k' k then (k, v) :: rest else (k', v') :: setitem rest k v
  end.

(** The loop [for key, value in default_config.items(): if key not in
    config: config[key] = value]. *)
Definition merge_defaults (config default_config : dict) : dict :=
  fold_left
    (fun config kv =>
       if has_key config (fst kv) then config
       else setitem config (fst kv) (snd kv))
    default_config config.

(** A configuration file: it does not exist, it cannot be used
    ([json.load] raises on it, or it holds a value that is not an object
    and on which the merge raises), or it holds an object. *)
Inductive config_file : Type :=
| Absent
| Garbled
| Parsed (config : dict).


(** [default_config] of [AutoF1RaceMonitor.load_config]. *)
Definition monitor_defaults : dict :=
  [("check_interval_hours", JNum 6);
   ("odds_fetch_hours_before_race",
    JList [JNum 72; JNum 48; JNum 24; JNum 12; JNum 6; JNum 2]);
   ("prediction_hours_before_race", JNum 24);
   ("auto_process_results_hours_after_race", JNum 4);
   ("betting_amount", JNum 10);
   ("min_expected_value", JNum (5 # 100));
   ("max_bets_per_race", JNum 8);
   ("odds_sources", JList [JStr "stake"; JStr "bet365"; JStr "pinnacle"]);
   ("notification_webhook", JNull);
   ("enable_auto_betting", JBool false);
   ("data_paths",
    JObj [("live_odds", JStr "data/live/current_odds.csv");
          ("predictions", JStr "data/live/next_race_predictions.csv");
          ("recommendations", JStr "data/live/betting_recommendations.csv");
          ("race_schedule", JStr "data/live/race_schedule.json");
          ("processed_races", JStr "data/processed/processed_races.json")])]%string.


(** [AutoF1RaceMonitor.load_config]: the same without the [try].  The
    result is [None] when the call raises: on a file that cannot be
    loaded, and on a missing file whose directory or which itself
    cannot be created ([creatable = false]; so it is for a path without
    a directory part, on which [os.makedirs('')] raises).  A creation
    that raises is taken to leave no file. *)
Definition monitor_load_config (creatable : bool) (file : config_file)
  : option dict * config_file :=
  match file with
  | Parsed config => (Some (merge_defaults config monitor_defaults), file)
  | Garbled => (None, file)
  | Absent =>
      if creatable
      then (Some monitor_defaults, Parsed monitor_defaults)
      else (None, Absent)
  end.

(** [load_processed_races]: the list that [processed_races.json] holds;
    the empty list when the file does not exist or cannot be loaded
    ([readable = false]). *)
Definition load_processed_races (readable : bool) (st : Evaluator.state)
  : list string :=
  match Evaluator.processed_races_file st with
  | Some names => if readable then names else []
  | None => []
  end.

(** A new [AutoRaceEvaluator] on the files of [st]: its registry is what
    [load_processed_races] reads. *)
Definition restart (readable : bool) (st : Evaluator.state)
  : Evaluator.state :=
  Evaluator.set_processed_races (load_processed_races readable st) st.

End Startup.

(** ** [F1BetSimulator.race_profits] ([src/ml/bet_simulator.py]) *)

Module Report.

(** The value that [simulate_bets] stores for a race. *)
Record race_summary : Type := {
  race_profit : Q;
  cumulative_profit : Q;
  total_capital : Q;
  bets_placed : nat;
  bets_won : nat;
  win_rate : Q
}.

Definition is_win (e : log_row) : bool :=
  match Outcome e with
  | WIN => true
  | LOSS => false
  end.

(** [race_profit], added up from 0 in the order of the bets. *)
Definition sum_profit (entries : list log_row) : Q :=
  fold_left Qplus (map Profit_Loss entries) 0.

(** One turn of the loop over the races: [cumulative] is
    [cumulative_profit] before the race, [entries] the bets logged for
    it. *)
Definition summarise (starting_capital cumulative : Q)
           (entries : list log_row) : race_summary :=
  let race_bets := List.length entries in
  let race_wins := List.length (filter is_win entries) in
  {| race_profit := sum_profit entries;
     cumulative_profit := cumulative + sum_profit entries;
     total_capital := starting_capital + (cumulative + sum_profit entries);
     bets_placed := race_bets;
     bets_won := race_wins;
     win_rate :=
       if (0 <? race_bets)%nat
       then inject_Z (Z.of_nat race_wins) / inject_Z (Z.of_nat race_bets)
       else 0 |}.

Fixpoint race_profits_from (s : BetSimulator.simulator) (top_n_success : Q)
         (cumulative : Q) (races : list string)
  : list (string * race_summary) :=
  match races with
  | [] => []
  | race_name :: rest =>
      let summary :=
        summarise (BetSimulator.starting_capital s) cumulative
                  (BetSimulator.race_entries s top_n_success race_name) in
      (race_name, summary)
        :: race_profits_from s top_n_success (cumulative_profit summary) rest
  end.

(** [self.race_profits] after [simulate_bets], in the order of its keys
    (the races are distinct, so each assignment adds a key). *)
Definition race_profits (s : BetSimulator.simulator) (top_n_success : Q)
  : list (string * race_summary) :=
  race_profits_from s top_n_success 0 (BetSimulator.races s).

(** The two lists that [plot_profit_over_time] draws. *)
Definition plotted_races (s : BetSimulator.simulator) (top_n_success : Q)
  : list string :=
  map fst (race_profits s top_n_success).

Definition plotted_capitals (s : BetSimulator.simulator) (top_n_success : Q)
  : list Q :=
  map (fun kv => total_capital (snd kv)) (race_profits s top_n_success).

End Report.

(** ** [should_process_results] ([src/ml/auto_race_monitor.py]) *)

Module Policy.

(** [(now - race_time).total_seconds() / 3600] *)
Definition hours_after_race (race_time now : Z) : Q :=
  inject_Z (now - race_time) / 1000000 / 3600.

Definition should_process_results (cfg : Monitor.config) (race_time now : Z)
  : bool :=
  Qle_bool 0 (hours_after_race race_time now) &&
  Qle_bool (hours_after_race race_time now)
           (Monitor.auto_process_results_hours_after_race cfg).

End Policy.

(** ** [calculate_timing_windows] ([src/ml/race_timing_demo.py]) *)

Module TimingDemo.

(** [timedelta(hours=h)], in microseconds. *)
Definition timedelta_hours (h : Z) : Z := h * 3600000000.

Definition odds_fetch_hours : list Z := [72; 48; 24; 12; 6; 2]%Z.
Definition prediction_hours : Z := 24.
Definition result_process_hours : Z := 4.

(** An entry of ['odds_fetch_windows'], and ['prediction_window']. *)
Record window : Type := {
  hours_before_race : Z;
  target_time : Z;
  window_start : Z;
  window_end : Z;
  is_active : bool;
  is_upcoming : bool
}.

(** ['result_processing_window']. *)
Record result_window : Type := {
  hours_after_race : Z;
  result_target_time : Z;
  result_is_active : bool;
  result_is_upcoming : bool
}.

Record timing_info : Type := {
  race_date : Z;
  current_time : Z;
  hours_until_race : Q;
  odds_fetch_windows : list window;
  prediction_window : window;
  result_processing_window : result_window
}.

(** The window of one hour on either side of [hours_before] hours before
    the race. *)
Definition window_before (race_date now hours_before : Z) : window :=
  let fetch_time := (race_date - timedelta_hours hours_before)%Z in
  let window_start := (fetch_time - timedelta_hours 1)%Z in
  let window_end := (fetch_time + timedelta_hours 1)%Z in
  {| hours_before_race := hours_before;
     target_time := fetch_time;
     window_start := window_start;
     window_end := window_end;
     is_active := Z.leb window_start now && Z.leb now window_end;
     is_upcoming := Z.ltb now window_start |}.

(** [now] is the value of [datetime.now()] in the call. *)
Definition calculate_timing_windows (race_date now : Z) : timing_info :=
  let result_time := (race_date + timedelta_hours result_process_hours)%Z in
  {| race_date := race_date;
     current_time := now;
     hours_until_race := inject_Z (race_date - now) / 1000000 / 3600;
     odds_fetch_windows := map (window_before race_date now) odds_fetch_hours;
     prediction_window := window_before race_date now prediction_hours;
     result_processing_window :=
       {| hours_after_race := result_process_hours;
          result_target_time := result_time;
          result_is_active := Z.leb race_date now && Z.leb now result_time;
          result_is_upcoming := Z.ltb now race_date |} |}.

End TimingDemo.

(** ** [get_next_race] of [src/ml/update_race_schedule.py] *)

Module ScheduleUpdater.

(** [race_time.replace(tzinfo=None)]: the reading of the clock that the
    date states, with or without an offset ([t] in [Aware t] is that
    reading); [None] for a date on which parsing raised. *)
Definition clock_reading (d : Monitor.parsed_date) : option Z :=
  match d with
  | Monitor.Naive t => Some t
  | Monitor.Aware t => Some t
  | Monitor.Invalid => None
  end.

(** The loop that collects [upcoming_races]; a date that cannot be
    parsed is reported and its race is left out. *)
Fixpoint upcoming_races (now : Z) (races : list Monitor.race)
  : list (Monitor.race * Z) :=
  match races with
  | [] => []
  | r :: rest =>
      match Monitor.race_date r with
      | None => upcoming_races now rest
      | Some d =>
          match clock_reading d with
          | Some race_time =>
              if Z.ltb now race_time
              then (r, race_time) :: upcoming_races now rest
              else upcoming_races now rest
          | None => upcoming_races now rest
          end
      end
  end.

Definition get_next_race (races : list Monitor.race) (now : Z)
  : option (Monitor.race * Z) :=
  match Monitor.sort_by_time (upcoming_races now races) with
  | first :: _ => Some first
  | [] => None
  end.

End ScheduleUpdater.

(** ** The countdown of [src/ml/live_dashboard_updater.py] *)

Module Countdown.

(** [time_until_race.total_seconds()], for a difference of [d]
    microseconds. *)
Definition total_seconds (d : Z) : Q := inject_Z d / 1000000.

(** [x // m] and [x % m] on floats. *)
Definition floordiv (x m : Q) : Z := Qfloor (x / m).
Definition fmod (x m : Q) : Q := x - m * inject_Z (floordiv x m).

(** [time_until_race.days] *)
Definition days_until (d : Z) : Z := (d / 86400000000)%Z.

(** [int(time_until_race.total_seconds() // 3600)] *)
Definition hours_until (d : Z) : Z := floordiv (total_seconds d) 3600.

(** [int((time_until_race.total_seconds() % 3600) // 60)] *)
Definition minutes_until (d : Z) : Z :=
  floordiv (fmod (total_seconds d) 3600) 60.

Definition is_race_weekend (d : Z) : bool :=
  negb (Qle_bool (72 * 3600) (total_seconds d)).

Definition is_race_day (d : Z) : bool :=
  negb (Qle_bool (24 * 3600) (total_seconds d)).

(** The entries ["hours"] and ["total_hours"] of [countdown_data]. *)
Definition countdown_hours (d : Z) : Z := (hours_until d mod 24)%Z.

End Countdown.

(** ** Vocabulary for the further statements *)

Module MoreTerms.

(** A default that the loaded configuration does not have. *)
Definition missing_from (config : Startup.dict)
           (kv : string * Startup.json) : bool :=
  negb (Startup.has_key config (fst kv)).

(** The elements of a list whose key is [key]. *)
Definition group {A : Type} (k : A -> string) (l : list A) (key : string)
  : list A :=
  filter (fun x => String.eqb (k x) key) l.

(** What [simulate_bets] logs for a joined row. *)
Definition settled_row (s : BetSimulator.simulator) (top_n_success : Q)
           (row : bet_row * res_row) : log_row :=
  BetSimulator.settle (BetSimulator.bet_amount s) top_n_success
                      (BetSimulator.race_of row) row.

(** The number of lost bets in a log. *)
Definition losses (log : list log_row) : nat :=
  List.length (filter (fun e => negb (Report.is_win e)) log).

(** The strict order of [String.compare]. *)
Definition lt_str (a b : string) : Prop := String.compare a b = Lt.

(** [r] has a date that can be parsed, it reads [t], and [t] is after
    [now]. *)
Definition reads_after (now : Z) (r : Monitor.race) (t : Z) : Prop :=
  (exists d, Monitor.race_date r = Some d /\
             ScheduleUpdater.clock_reading d = Some t) /\ (now < t)%Z.

(** The recommendations file exists and [process_new_race_results]
    cannot use it: it cannot be read, or it has no column
    [Race_Name]. *)
Definition unusable_recommendations (st : Evaluator.state) : Prop :=
  Evaluator.betting_recommendations_file st = Some Evaluator.UnreadableBets \/
  exists columns rows,
    Evaluator.betting_recommendations_file st
    = Some (Evaluator.Bets columns rows) /\
    ~ In "Race_Name"%string columns.

(** The files on which a sequence of effects started a call of
    [process_new_race_results], in order. *)
Definition attempts (t : list Evaluator.event) : list string :=
  flat_map
    (fun ev =>
       match ev with
       | Evaluator.Processing file_path => [file_path]
       | _ => []
       end)
    t.

End MoreTerms.

(** ** Further sample data *)

Module MoreSamples.

Import Evaluator Samples.

Local Open Scope string_scope.

(** A call on [bahrain_state] in which every step completes. *)
Definition ok_call : completion bool * state * list event :=
  process_new_race_results default_config env_ok bahrain_state
                           "bahrain_results.csv".

(** [bahrain_state] with recommendations whose race column is named
    [race_name]. *)
Definition lowercase_state : state := {|
  watch_directory := watch_directory bahrain_state;
  betting_recommendations_file :=
    Some (Bets ["Driver"; "Quote"; "Predicted_Probability"; "EV"; "race_name"]
               bahrain_bets);
  master_log_file := None;
  profit_graph_file := None;
  archive_directory := [];
  processed_races := [];
  processed_races_file := None
|}.

(** [bahrain_state] with a master log that holds a bet of another
    race. *)
Definition saudi_logged_state : state :=
  set_master_log_file
    (Some [settled "Saudi GP" "Max Verstappen" 5 LOSS (-10)])
    bahrain_state.

(** A simulator loaded with the recommendations and the results of one
    race. *)
Definition bahrain_simulator : BetSimulator.simulator := {|
  BetSimulator.starting_capital := 1000;
  BetSimulator.bet_amount := 10;
  BetSimulator.betting_df := bahrain_bets;
  BetSimulator.results_df :=
    [{| r_Driver := "Max Verstappen"; r_Actual_Position := Some 2;
        r_Race_Name := "Bahrain GP" |};
     {| r_Driver := "Lando Norris"; r_Actual_Position := Some 5;
        r_Race_Name := "Bahrain GP" |}]
|}.

(** The second race of [naive_schedule]. *)
Definition bahrain_race : Monitor.race := {|
  Monitor.race_name := "Bahrain Grand Prix";
  Monitor.race_date := Some (Monitor.Naive 1742137200000000);
  Monitor.round_number := 2
|}.

End MoreSamples.

(** * Properties *)

(** ** Strings and lists *)

Module PyStrFacts.

Import PyStr.

Lemma mem_In x xs : mem x xs = true <-> In x xs.
Proof.
  unfold mem. rewrite existsb_exists. split.
  - intros [y [Hy E]]. apply String.eqb_eq in E. now subst.
  - intros H. exists x. split; [assumption | apply String.eqb_refl].
Qed.

Lemma mem_false x xs : mem x xs = false <-> ~ In x xs.
Proof.
  rewrite <- mem_In. destruct (mem x xs); split; congruence.
Qed.

End PyStrFacts.

(** ** The ledger: [drop_duplicates(keep='last')] *)

Module LedgerFacts.

Import Pandas Terms.

Lemma same_key_iff a b : same_key a b = true <-> key a = key b.
Proof.
  unfold same_key, key. rewrite andb_true_iff, !String.eqb_eq.
  split; [intros [-> ->]; reflexivity | intros E; now inversion E].
Qed.

Lemma has_key_iff r l :
  existsb (same_key r) l = true <-> In (key r) (map key l).
Proof.
  rewrite existsb_exists, in_map_iff. split.
  - intros [x [Hx E]]. exists x. apply same_key_iff in E. now split.
  - intros [x [E Hx]]. exists x. split; [assumption|]. now apply same_key_iff.
Qed.

Lemma has_key_congr a b l :
  key a = key b -> existsb (same_key a) l = existsb (same_key b) l.
Proof.
  intros E. apply eq_true_iff_eq. now rewrite !has_key_iff, E.
Qed.

Lemma In_drop_duplicates_last r l :
  In r (drop_duplicates_last l) -> In r l.
Proof.
  induction l as [|x l IH]; simpl; [tauto|].
  destruct (existsb (same_key x) l); simpl; intuition.
Qed.

(** A key is in the result exactly when it is in the argument. *)
Lemma keys_drop_duplicates_last k l :
  In k (map key (drop_duplicates_last l)) <-> In k (map key l).
Proof.
  induction l as [|x l IH]; simpl; [tauto|].
  destruct (existsb (same_key x) l) eqn:E; simpl; rewrite IH.
  - apply has_key_iff in E. split; [tauto|]. intros [<-|H]; assumption.
  - tauto.
Qed.

Lemma has_key_drop_duplicates_last r l :
  existsb (same_key r) (drop_duplicates_last l) = existsb (same_key r) l.
Proof.
  apply eq_true_iff_eq. rewrite !has_key_iff. apply keys_drop_duplicates_last.
Qed.

Lemma NoDup_drop_duplicates_last l :
  NoDup (map key (drop_duplicates_last l)).
Proof.
  induction l as [|x l IH]; simpl; [constructor|].
  destruct (existsb (same_key x) l) eqn:E; [assumption|].
  simpl. constructor; [|assumption].
  rewrite keys_drop_duplicates_last, <- has_key_iff. congruence.
Qed.

Lemma drop_duplicates_last_NoDup l :
  NoDup (map key l) -> drop_duplicates_last l = l.
Proof.
  induction l as [|x l IH]; simpl; [reflexivity|].
  intros H. inversion H as [|? ? Hx Hl]; subst.
  destruct (existsb (same_key x) l) eqn:E.
  - apply has_key_iff in E. contradiction.
  - now rewrite IH.
Qed.

(** Removing duplicates before an append changes nothing. *)
Lemma drop_duplicates_last_app_l a b :
  drop_duplicates_last (drop_duplicates_last a ++ b)
  = drop_duplicates_last (a ++ b).
Proof.
  induction a as [|x a IH]; simpl; [reflexivity|].
  rewrite existsb_app.
  destruct (existsb (same_key x) a) eqn:E; simpl.
  - exact IH.
  - rewrite existsb_app, has_key_drop_duplicates_last, E, IH. reflexivity.
Qed.

(** The rows of [a] that survive an append of [n] are those whose key
    is not in [n]. *)
Lemma drop_duplicates_last_app a n :
  drop_duplicates_last (a ++ n)
  = filter (not_in n) (drop_duplicates_last a) ++ drop_duplicates_last n.
Proof.
  induction a as [|x a IH]; simpl; [reflexivity|].
  rewrite existsb_app.
  destruct (existsb (same_key x) a) eqn:E; simpl; [exact IH|].
  unfold not_in at 1.
  destruct (existsb (same_key x) n) eqn:F; simpl; rewrite IH; reflexivity.
Qed.




Lemma key_eqb_iff r k :
  String.eqb (Race_Name r) (fst k) && String.eqb (Driver r) (snd k) = true
  <-> key r = k.
Proof.
  destruct k as [a b]. unfold key. simpl.
  rewrite andb_true_iff, !String.eqb_eq.
  split; [intros [-> ->]; reflexivity | intros E; now inversion E].
Qed.

Lemma last_with_key_None k l :
  last_with_key k l = None <-> ~ In k (map key l).
Proof.
  induction l as [|x l IH]; simpl; [tauto|].
  destruct (last_with_key k l) eqn:E.
  - split; [discriminate|]. intros H. exfalso.
    assert (N : ~ In k (map key l)) by tauto.
    apply IH in N. discriminate.
  - destruct (String.eqb (Race_Name x) (fst k) && String.eqb (Driver x) (snd k)) eqn:F.
    + apply key_eqb_iff in F. split; [discriminate|]. tauto.
    + split; [|reflexivity]. intros _ [H|H].
      * apply key_eqb_iff in H. congruence.
      * now apply IH in H.
Qed.

(** The rows that stay are the last rows of their keys. *)
Lemma In_drop_duplicates_last_iff r l :
  In r (drop_duplicates_last l) <-> last_with_key (key r) l = Some r.
Proof.
  induction l as [|x l IH]; cbn [drop_duplicates_last last_with_key];
    [simpl; split; [tauto|discriminate]|].
  assert (K : key x = key x) by reflexivity. apply key_eqb_iff in K.
  destruct (existsb (same_key x) l) eqn:E.
  - rewrite IH. apply has_key_iff in E.
    destruct (last_with_key (key r) l) eqn:L; [tauto|].
    split; [discriminate|].
    destruct (String.eqb (Race_Name x) (fst (key r))
              && String.eqb (Driver x) (snd (key r))) eqn:F; [|discriminate].
    apply key_eqb_iff in F. apply last_with_key_None in L.
    rewrite <- F in L. contradiction.
  - cbn [In]. rewrite IH.
    assert (N : ~ In (key x) (map key l)).
    { rewrite <- has_key_iff. congruence. }
    destruct (last_with_key (key r) l) eqn:L.
    + split; [|tauto]. intros [<-|H]; [|assumption].
      apply last_with_key_None in N. congruence.
    + destruct (String.eqb (Race_Name x) (fst (key r))
                && String.eqb (Driver x) (snd (key r))) eqn:F.
      * split; [intros [->|H]; [reflexivity|discriminate]|].
        intros H. left. congruence.
      * split; [|discriminate]. intros [<-|H]; [|discriminate].
        congruence.
Qed.

End LedgerFacts.

(** ** The master log *)

Module MasterLogFacts.

Import Pandas Terms LedgerFacts Evaluator.

Lemma existing_log_set_master_log_file rows st :
  existing_log (set_master_log_file (Some rows) st) = rows.
Proof. reflexivity. Qed.

(** One call that does not raise. *)
Lemma update_master_log_Some e st new_data st' t :
  update_master_log e st new_data = Some (st', t) ->
  master_log_ok e = true /\
  st' = set_master_log_file
          (Some (updated_log (existing_log st) new_data)) st /\
  t = [LedgerAppend (List.length new_data)].
Proof.
  unfold update_master_log. destruct (master_log_ok e); [|discriminate].
  intros H. inversion H. auto.
Qed.

Lemma update_master_log_None e st new_data :
  update_master_log e st new_data = None -> master_log_ok e = false.
Proof.
  unfold update_master_log. destruct (master_log_ok e); [discriminate|reflexivity].
Qed.

(** The log after a sequence of calls, in closed form. *)
Lemma existing_log_appends batches :
  forall st,
    NoDup (map key (existing_log st)) ->
    existing_log (appends st batches)
    = drop_duplicates_last (existing_log st ++ appended batches).
Proof.
  induction batches as [|[e new_data] rest IH]; intros st Hst.
  - simpl. rewrite app_nil_r. symmetry. now apply drop_duplicates_last_NoDup.
  - cbn [appends appended flat_map fst snd].
    destruct (update_master_log e st new_data) as [[st1 t1]|] eqn:U.
    + apply update_master_log_Some in U. destruct U as [Hok [-> _]].
      rewrite Hok, IH.
      * rewrite existing_log_set_master_log_file. unfold updated_log.
        rewrite drop_duplicates_last_app_l. now rewrite app_assoc.
      * rewrite existing_log_set_master_log_file.
        apply NoDup_drop_duplicates_last.
    + apply update_master_log_None in U. rewrite U. simpl. now apply IH.
Qed.

(** C1.  Start from a master log with at most one row per
    (Race_Name, Driver) pair, for instance from no log at all, and call
    [update_master_log] any number of times with any batches.  The log
    that results has at most one row per pair, and its rows are exactly
    the most recently appended row of each pair: a row of an incoming
    batch replaces the row that was there for its pair. *)
Theorem master_log_one_row_per_pair :
  forall (st : state) (batches : list (env * list log_row)),
    NoDup (map key (existing_log st)) ->
    NoDup (map key (existing_log (appends st batches))) /\
    (forall r,
        In r (existing_log (appends st batches)) <->
        last_with_key (key r) (existing_log st ++ appended batches) = Some r).
Proof.
  intros st batches Hst. rewrite (existing_log_appends batches st Hst). split.
  - apply NoDup_drop_duplicates_last.
  - intros r. apply In_drop_duplicates_last_iff.
Qed.

End MasterLogFacts.

(** ** One call of [process_new_race_results] *)

Module ProcessFacts.

Import Pandas Terms LedgerFacts PyStr PyStrFacts Evaluator MasterLogFacts.

Lemma update_profit_graph_cases cfg e st st' g :
  update_profit_graph cfg e st = (st', g) ->
  (st' = st /\ (g = [] \/ g = [GraphFailed])) \/
  (exists series, st' = set_profit_graph_file (Some series) st /\
                  g = [GraphSaved] /\ savefig_ok e = true).
Proof.
  unfold update_profit_graph.
  destruct (master_log_file st) as [log_df|].
  - destruct (savefig_ok e) eqn:S; intros H; inversion H; subst.
    + right. eauto.
    + left. auto.
  - intros H. inversion H. left. auto.
Qed.

(** After the master log was written the graph step does run. *)
Lemma update_profit_graph_after_append cfg e st rows st' g :
  update_profit_graph cfg e (set_master_log_file (Some rows) st) = (st', g) ->
  (g = [GraphSaved] /\ savefig_ok e = true) \/
  (g = [GraphFailed] /\ savefig_ok e = false).
Proof.
  unfold update_profit_graph. simpl.
  destruct (savefig_ok e); intros H; inversion H; auto.
Qed.

Lemma archive_processed_file_cases e st file_path race_name st' a :
  archive_processed_file e st file_path race_name = Some (st', a) ->
  (st' = st /\ a = [ArchiveFailed file_path]) \/
  (exists entries f,
      watch_directory st = Some entries /\
      lookup entries file_path = Some f /\
      move_ok e = true /\
      st' = set_archive_directory
              ((archived_name e file_path race_name, content f)
                 :: archive_directory st)
              (set_watch_directory
                 (Some (remove_file file_path entries)) st) /\
      a = [Archived file_path (archived_name e file_path race_name)]).
Proof.
  unfold archive_processed_file.
  destruct (archive_dir_ok e); cbn [negb]; [|discriminate].
  destruct (watch_directory st) as [entries|] eqn:W.
  - destruct (lookup entries file_path) as [f|] eqn:L.
    + destruct (move_ok e) eqn:M; intros H; inversion H; subst.
      * right. exists entries, f. auto.
      * left. auto.
    + intros H; inversion H. left. auto.
  - intros H; inversion H. left. auto.
Qed.

(** The function raises exactly when the archive directory cannot be
    made. *)
Lemma archive_processed_file_dir e st file_path race_name :
  (archive_dir_ok e = false ->
   archive_processed_file e st file_path race_name = None) /\
  (archive_dir_ok e = true ->
   exists st' a,
     archive_processed_file e st file_path race_name = Some (st', a)).
Proof.
  unfold archive_processed_file. split; intros ->; cbn [negb]; [reflexivity|].
  destruct (watch_directory st) as [entries|]; [|eauto].
  destruct (lookup entries file_path) as [f|]; [|eauto].
  destruct (move_ok e); eauto.
Qed.

(** What the graph step and the archive step leave alone. *)
Lemma update_profit_graph_frame cfg e st st' g :
  update_profit_graph cfg e st = (st', g) ->
  watch_directory st' = watch_directory st /\
  betting_recommendations_file st' = betting_recommendations_file st /\
  master_log_file st' = master_log_file st /\
  archive_directory st' = archive_directory st /\
  processed_races st' = processed_races st /\
  processed_races_file st' = processed_races_file st.
Proof.
  intros H. apply update_profit_graph_cases in H.
  destruct H as [[-> _]|(series & -> & _)]; simpl; auto 10.
Qed.

Lemma archive_processed_file_frame e st file_path race_name st' a :
  archive_processed_file e st file_path race_name = Some (st', a) ->
  betting_recommendations_file st' = betting_recommendations_file st /\
  master_log_file st' = master_log_file st /\
  profit_graph_file st' = profit_graph_file st /\
  processed_races st' = processed_races st /\
  processed_races_file st' = processed_races_file st.
Proof.
  intros H. apply archive_processed_file_cases in H.
  destruct H as [[-> _]|(entries & f & _ & _ & _ & -> & _)]; simpl; auto 10.
Qed.

(** The ways a call can end: before anything was written; after the
    master log and the graph, when the archive directory could not be
    made; or after the whole sequence append, graph, archive,
    registry. *)
Lemma process_shape cfg e st file_path r st' t :
  process_new_race_results cfg e st file_path = (r, st', t) ->
  (r <> Returns true /\ st' = st /\ t = [Processing file_path]) \/
  (exists columns rows bet_columns betting_df st2 g,
      validate_race_results_file st file_path = true /\
      read_csv st file_path = Some (columns, rows) /\
      betting_recommendations_file st = Some (Bets bet_columns betting_df) /\
      load_ok e = true /\
      master_log_ok e = true /\
      update_profit_graph cfg e
        (set_master_log_file
           (Some (updated_log (existing_log st)
                    (new_data cfg e st file_path betting_df columns rows)))
           st) = (st2, g) /\
      ((archive_dir_ok e = false /\
        r <> Returns true /\ st' = st2 /\
        t = Processing file_path
              :: LedgerAppend
                   (List.length
                      (new_data cfg e st file_path betting_df columns rows))
              :: g)
       \/
       (exists st3 a,
           archive_processed_file e st2 file_path
             (extract_race_name_from_file e st file_path) = Some (st3, a) /\
           t = Processing file_path
                 :: LedgerAppend
                      (List.length
                         (new_data cfg e st file_path betting_df columns rows))
                 :: g ++ a ++ [Registered file_path] /\
           ((r <> Returns true /\
             st' = set_processed_races (processed_races st3 ++ [file_path]) st3)
            \/
            st' = set_processed_races_file
                    (Some (processed_races st3 ++ [file_path]))
                    (set_processed_races
                       (processed_races st3 ++ [file_path]) st3))))).
Proof.
  assert (N : forall r0 : completion bool,
             r0 = Returns false \/ r0 = Raises -> r0 <> Returns true).
  { intros r0 [->| ->]; discriminate. }
  unfold process_new_race_results.
  destruct (validate_race_results_file st file_path) eqn:V; cbn [negb];
    [|intros H; inversion H; left; auto].
  destruct (read_csv st file_path) as [[columns rows]|] eqn:R;
    [|intros H; inversion H; left; auto].
  destruct (betting_recommendations_file st)
    as [[|bet_columns betting_df]|] eqn:B;
    [intros H; inversion H; left; auto | |intros H; inversion H; left; auto].
  destruct (mem "Race_Name" bet_columns); cbn [negb];
    [|intros H; inversion H; left; auto].
  destruct (temp_files_ok e); cbn [negb];
    [|intros H; inversion H; left; auto].
  destruct (load_ok e) eqn:Ld; cbn [negb];
    [|destruct (cleanup_ok e); intros H; inversion H; left; auto].
  unfold update_master_log.
  destruct (master_log_ok e) eqn:M;
    [|destruct (cleanup_ok e); intros H; inversion H; left; auto].
  fold (new_data cfg e st file_path betting_df columns rows).
  destruct (update_profit_graph cfg e _) as [st2 g] eqn:G.
  intros H. right. exists columns, rows, bet_columns, betting_df, st2, g.
  repeat (split; [first [reflexivity | assumption]|]).
  destruct (archive_processed_file e st2 file_path _) as [[st3 a]|] eqn:A.
  - right. exists st3, a. split; [reflexivity|].
    unfold save_processed_races in H.
    destruct (save_registry_ok e).
    + destruct (enable_model_retraining cfg);
        [destruct (check_model_retraining cfg _)|];
        destruct (cleanup_ok e); inversion H; subst;
        (split; [reflexivity|]); right; reflexivity.
    + destruct (cleanup_ok e); inversion H; subst;
        (split; [reflexivity|]); left; (split; [discriminate|reflexivity]).
  - left.
    assert (D : archive_dir_ok e = false).
    { destruct (archive_dir_ok e) eqn:D; [|reflexivity].
      destruct (proj2 (archive_processed_file_dir e st2 file_path
                         (extract_race_name_from_file e st file_path)) D)
        as (x & y & E).
      rewrite E in A. discriminate. }
    destruct (cleanup_ok e); inversion H; subst;
      (split; [exact D|]); (split; [discriminate|]); split; reflexivity.
Qed.

(** What a call that got as far as the master log leaves in the files
    that a later call reads. *)
Lemma process_fields cfg e st file_path r st' t :
  process_new_race_results cfg e st file_path = (r, st', t) ->
  (r <> Returns true /\ st' = st /\ t = [Processing file_path]) \/
  (exists columns rows bet_columns betting_df,
      read_csv st file_path = Some (columns, rows) /\
      betting_recommendations_file st = Some (Bets bet_columns betting_df) /\
      master_log_file st'
      = Some (updated_log (existing_log st)
                (new_data cfg e st file_path betting_df columns rows)) /\
      betting_recommendations_file st' = betting_recommendations_file st /\
      (watch_directory st' = watch_directory st \/
       exists entries,
         watch_directory st = Some entries /\
         watch_directory st' = Some (remove_file file_path entries))).
Proof.
  intros H. apply process_shape in H.
  destruct H as [H|H]; [left; exact H|right].
  destruct H as (columns & rows & bet_columns & betting_df & st2 & g
                 & _ & R & B & _ & _ & G & E).
  exists columns, rows, bet_columns, betting_df.
  split; [exact R|]. split; [exact B|].
  apply update_profit_graph_frame in G. simpl in G.
  destruct G as (W2 & B2 & M2 & _).
  destruct E as [(_ & _ & -> & _)|(st3 & a & A & _ & S)]; [auto|].
  pose proof (archive_processed_file_frame _ _ _ _ _ _ A) as (B3 & M3 & _).
  assert (W3 : watch_directory st3 = watch_directory st2 \/
               exists entries,
                 watch_directory st2 = Some entries /\
                 watch_directory st3 = Some (remove_file file_path entries)).
  { apply archive_processed_file_cases in A.
    destruct A as [[-> _]|(entries & f & W & _ & _ & -> & _)]; simpl; eauto. }
  assert (F : master_log_file st' = master_log_file st3
              /\ betting_recommendations_file st'
                 = betting_recommendations_file st3
              /\ watch_directory st' = watch_directory st3).
  { destruct S as [[_ ->]| ->]; simpl; auto. }
  destruct F as (M & B' & W).
  rewrite M, M3, M2, B', B3, B2, W.
  repeat split.
  destruct W3 as [W3|(entries & W3 & W3')].
  - left. congruence.
  - right. exists entries. split; congruence.
Qed.

Lemma lookup_remove_file file_path entries :
  lookup (remove_file file_path entries) file_path = None.
Proof.
  unfold lookup, remove_file.
  induction entries as [|f entries IH]; simpl; [reflexivity|].
  destruct (String.eqb (file_name f) file_path) eqn:E; simpl;
    [|rewrite E]; exact IH.
Qed.



(** The race name does not depend on the clock when the file name holds
    one of the keywords, or when the file has a [Race_Name] column with
    a single value. *)
Lemma extract_race_name_clock_free e1 e2 st file_path :
  (exists indicator,
      find (fun indicator => contains (lower indicator) (lower file_path))
           race_indicators = Some indicator) \/
  (exists columns rows race_name,
      read_csv st file_path = Some (columns, rows) /\
      mem "Race_Name" columns = true /\
      Pandas.unique (map r_Race_Name rows) = [race_name]) ->
  extract_race_name_from_file e1 st file_path
  = extract_race_name_from_file e2 st file_path.
Proof.
  unfold extract_race_name_from_file.
  intros [(indicator & ->)|(columns & rows & race_name & -> & -> & ->)];
    [reflexivity|].
  destruct (find _ race_indicators); reflexivity.
Qed.




(** C6 (as the code has it).  A call of [process_new_race_results]
    ends in one of three ways.  (1) Nothing was written: the call
    returned [False] or an exception left it before the master log was
    touched; the state is the one it started from, so the file is still
    in the watch directory and outside the registry.  (2) The master
    log was written and the graph was regenerated or its regeneration
    failed, and then the archive directory could not be made: the call
    does not return [True], nothing was moved and nothing recorded, so
    the file is again in the watch directory and outside the registry.
    (3) The master log was written, and then, in this order: the graph
    was regenerated or its regeneration failed, the file was moved to
    the archive or the move failed, and the file name was recorded in
    the registry.  The archive move and the registry record thus happen
    only after a successful append, and the record only after the
    attempt to move; a failed regeneration of the graph does not stop
    them. *)
Theorem process_effects_in_order :
  forall (cfg : config) (e : env) (st : state) (file_path : string),
    let call := process_new_race_results cfg e st file_path in
    ((returned call = Returns false \/ returned call = Raises) /\
     state_after call = st /\
     effects_of call = [Processing file_path])
    \/
    (exists n g rows,
        master_log_ok e = true /\
        master_log_file (state_after call) = Some rows /\
        (g = GraphSaved /\ savefig_ok e = true \/
         g = GraphFailed /\ savefig_ok e = false) /\
        ((archive_dir_ok e = false /\
          (returned call = Returns false \/ returned call = Raises) /\
          effects_of call = [Processing file_path; LedgerAppend n; g] /\
          watch_directory (state_after call) = watch_directory st /\
          archive_directory (state_after call) = archive_directory st /\
          processed_races (state_after call) = processed_races st /\
          processed_races_file (state_after call) = processed_races_file st)
         \/
         (exists a,
             archive_dir_ok e = true /\
             effects_of call
             = [Processing file_path; LedgerAppend n; g; a;
                Registered file_path] /\
             (a = ArchiveFailed file_path \/
              exists archived, a = Archived file_path archived) /\
             processed_races (state_after call)
             = processed_races st ++ [file_path]))).
Proof.
  intros cfg e st file_path. cbn zeta.
  assert (N : forall r0 : completion bool,
             r0 <> Returns true -> r0 = Returns false \/ r0 = Raises).
  { intros [[|]|] H; auto. now elim H. }
  destruct (process_new_race_results cfg e st file_path) as [[r st'] t] eqn:H.
  unfold returned, state_after, effects_of. simpl.
  pose proof (process_fields _ _ _ _ _ _ _ H) as F.
  apply process_shape in H.
  destruct H as [(Hr & -> & ->)|H]; [left; auto|right].
  destruct H as (columns & rows & bet_columns & betting_df & st2 & g
                 & _ & _ & _ & _ & M & G & E).
  destruct F as [(_ & _ & F)|(c & r0 & bc & bd & _ & _ & F & _)].
  { exfalso.
    destruct E as [(_ & _ & _ & T)|(st3 & a & _ & T & _)];
      rewrite T in F; discriminate. }
  pose proof (update_profit_graph_frame _ _ _ _ _ G) as (W2 & _ & _ & A2 & P2 & S2).
  simpl in W2, A2, P2, S2.
  apply update_profit_graph_after_append in G.
  exists (List.length (new_data cfg e st file_path betting_df columns rows)).
  assert (Hg : exists g0, g = [g0] /\
               (g0 = GraphSaved /\ savefig_ok e = true \/
                g0 = GraphFailed /\ savefig_ok e = false)).
  { destruct G as [[-> S]|[-> S]]; eexists; split; eauto. }
  destruct Hg as (g0 & -> & Hg).
  exists g0. eexists. split; [exact M|]. split; [exact F|]. split; [exact Hg|].
  destruct E as [(D & Hr & -> & ->)|(st3 & a & A & -> & S)].
  - left. auto 10.
  - right.
    pose proof (archive_processed_file_frame _ _ _ _ _ _ A) as (_ & _ & _ & P3 & _).
    assert (D : archive_dir_ok e = true).
    { destruct (archive_dir_ok e) eqn:D; [reflexivity|].
      rewrite (proj1 (archive_processed_file_dir e st2 file_path
                        (extract_race_name_from_file e st file_path)) D) in A.
      discriminate. }
    apply archive_processed_file_cases in A.
    assert (Ha : exists a0, a = [a0] /\
                 (a0 = ArchiveFailed file_path \/
                  exists archived, a0 = Archived file_path archived)).
    { destruct A as [[_ ->]|(entries & f & _ & _ & _ & _ & ->)];
        eexists; split; eauto. }
    destruct Ha as (a0 & -> & Ha).
    exists a0. split; [exact D|]. split; [reflexivity|]. split; [exact Ha|].
    destruct S as [[_ ->]| ->]; simpl; congruence.
Qed.

Lemma validate_false_iff st file_path :
  validate_race_results_file st file_path = false <->
  (read_csv st file_path = None \/
   exists columns rows,
     read_csv st file_path = Some (columns, rows) /\
     (~ In "Driver"%string columns \/ ~ In "Actual_Position"%string columns)).
Proof.
  unfold validate_race_results_file, required_columns.
  destruct (read_csv st file_path) as [[columns rows]|]; [|tauto].
  cbn [filter].
  destruct (mem "Driver" columns) eqn:D;
    destruct (mem "Actual_Position" columns) eqn:P; cbn [negb].
  - apply mem_In in D. apply mem_In in P. split; [discriminate|].
    intros [H|(c & r & H & [N|N])]; [discriminate| |];
      inversion H; subst; contradiction.
  - apply mem_false in P. split; [|reflexivity]. intros _. right. eauto.
  - apply mem_false in D. split; [|reflexivity]. intros _. right. eauto.
  - apply mem_false in D. split; [|reflexivity]. intros _. right. eauto.
Qed.

Lemma process_invalid cfg e st file_path :
  validate_race_results_file st file_path = false ->
  process_new_race_results cfg e st file_path
  = (Returns false, st, [Processing file_path]).
Proof.
  intros V. unfold process_new_race_results. now rewrite V.
Qed.

End ProcessFacts.

(** ** The watcher: [detect_new_race_files] *)

Module WatcherFacts.

Import PyStr PyStrFacts Terms Evaluator.

Lemma candidate_iff min_age now processed pattern f :
  candidate min_age now processed pattern f = true <->
  Glob.glob_match pattern (file_name f) = true /\
  (min_age <= now - mtime f)%Q /\
  ~ In (file_name f) processed.
Proof.
  unfold candidate.
  rewrite !andb_true_iff, Qle_bool_iff, negb_true_iff, mem_false. tauto.
Qed.

Lemma detect_In cfg now st name :
  In name (fst (detect_new_race_files cfg now st)) <->
  exists f,
    In f (watched st) /\ file_name f = name /\
    (exists pattern,
        In pattern (file_patterns cfg) /\
        Glob.glob_match pattern name = true) /\
    ~ In name (processed_races st) /\
    (min_file_age_seconds cfg <= now - mtime f)%Q.
Proof.
  unfold detect_new_race_files, watched.
  destruct (watch_directory st) as [entries|]; simpl.
  - rewrite in_flat_map. split.
    + intros (pattern & Hp & H). apply in_map_iff in H.
      destruct H as (f & <- & H). apply filter_In in H.
      destruct H as [Hf C]. apply candidate_iff in C.
      destruct C as (G & A & N). exists f. eauto 10.
    + intros (f & Hf & <- & (pattern & Hp & G) & N & A).
      exists pattern. split; [assumption|].
      apply in_map. apply filter_In. split; [assumption|].
      apply candidate_iff. auto.
  - split; [tauto|]. intros (f & [] & _).
Qed.

Lemma detect_later cfg now now' st name :
  (now <= now')%Q ->
  In name (fst (detect_new_race_files cfg now st)) ->
  In name (fst (detect_new_race_files cfg now' st)).
Proof.
  intros Hle. rewrite !detect_In.
  intros (f & Hf & E & P & N & A). exists f. repeat split; auto. lra.
Qed.

(** C8.  A scan returns a file name exactly when the watch directory
    has an entry of that name which matches one of the configured
    patterns, is not in the registry and is at least
    [min_file_age_seconds] old.  With files that are 10 and 60 seconds
    old and a minimum age of 30 seconds, only the second is returned. *)
Theorem detect_new_race_files_candidates :
  forall (cfg : config) (now : Q) (st : state) (name : string),
    (In name (fst (detect_new_race_files cfg now st)) <->
     exists f,
       In f (watched st) /\ file_name f = name /\
       (exists pattern,
           In pattern (file_patterns cfg) /\
           Glob.glob_match pattern name = true) /\
       ~ In name (processed_races st) /\
       (min_file_age_seconds cfg <= now - mtime f)%Q)
    /\
    fst (detect_new_race_files default_config 100 Samples.two_files_state)
    = ["old_results.csv"%string].
Proof.
  intros cfg now st name. split; [apply detect_In | reflexivity].
Qed.

(** C10.  A scan can return the same file more than once.  With the
    default patterns a name that matches both [*results*.csv] and
    [*race_results*.csv] is listed once for each, and
    [run_single_check] then calls [process_new_race_results] on it
    twice. *)
Theorem detect_new_race_files_repeats :
  exists (now : Q) (st : state) (envs : nat -> env) (name : string),
    In "*results*.csv"%string (file_patterns default_config) /\
    In "*race_results*.csv"%string (file_patterns default_config) /\
    Glob.glob_match "*results*.csv" name = true /\
    Glob.glob_match "*race_results*.csv" name = true /\
    fst (detect_new_race_files default_config now st) = [name; name] /\
    exists t1 t2,
      effects_of (run_single_check default_config envs now st)
      = Processing name :: t1 ++ Processing name :: t2.
Proof.
  exists 100, Samples.race_results_state, (fun _ => Samples.env_ok),
    "bahrain_race_results.csv"%string.
  split; [simpl; tauto|]. split; [simpl; tauto|].
  split; [reflexivity|]. split; [reflexivity|]. split; [reflexivity|].
  exists [LedgerAppend 2; GraphSaved;
          Archived "bahrain_race_results.csv"
                   "20250316_180000_Bahrain_GP_bahrain_race_results.csv";
          Registered "bahrain_race_results.csv"], [].
  reflexivity.
Qed.

End WatcherFacts.

(** ** Files that fail validation *)

Module ValidationFacts.

Import PyStr PyStrFacts Terms Evaluator ProcessFacts WatcherFacts.

(** The count of a check is at most the number of files it was given. *)
Lemma process_files_count cfg envs new_files :
  forall i st n,
    returned (process_files cfg envs i new_files st) = Returns n ->
    (n <= List.length new_files)%nat.
Proof.
  induction new_files as [|f rest IH]; intros i st n.
  - cbn. intros H. inversion H. apply Nat.le_refl.
  - cbn [process_files].
    destruct (process_new_race_results cfg (envs i) st f)
      as [[[ok|] st1] t1]; [|discriminate].
    specialize (IH (S i) st1).
    destruct (process_files cfg envs (S i) rest st1) as [[[m|] st2] t2];
      unfold returned in *; simpl in *; [|discriminate].
    intros H. inversion H. specialize (IH m eq_refl). destruct ok; lia.
Qed.

(** C7.  When a results file cannot be read, or lacks the column
    [Driver] or the column [Actual_Position],
    [process_new_race_results] returns [False] and leaves every file
    and the registry as they were.  A later scan therefore returns the
    file again, and the count that [run_single_check] returns does not
    include it: it stays below the number of files of the scan. *)
Theorem invalid_file_changes_nothing :
  forall (cfg : config) (e : env) (st : state) (file_path : string),
    (read_csv st file_path = None \/
     exists columns rows,
       read_csv st file_path = Some (columns, rows) /\
       (~ In "Driver"%string columns \/
        ~ In "Actual_Position"%string columns)) ->
    process_new_race_results cfg e st file_path
    = (Returns false, st, [Processing file_path]) /\
    (forall now now',
        (now <= now')%Q ->
        In file_path (fst (detect_new_race_files cfg now st)) ->
        In file_path
           (fst (detect_new_race_files cfg now'
                   (state_after
                      (process_new_race_results cfg e st file_path))))) /\
    (forall envs i rest,
        returned (process_files cfg envs i (file_path :: rest) st)
        = returned (process_files cfg envs (S i) rest st) /\
        state_after (process_files cfg envs i (file_path :: rest) st)
        = state_after (process_files cfg envs (S i) rest st) /\
        (forall n,
            returned (process_files cfg envs i (file_path :: rest) st)
            = Returns n ->
            (n < List.length (file_path :: rest))%nat)).
Proof.
  intros cfg e st file_path H.
  apply validate_false_iff in H.
  pose proof (process_invalid cfg e st file_path H) as P.
  split; [exact P|]. split.
  - intros now now' Hle Hin. rewrite P. unfold state_after. simpl.
    now apply (detect_later cfg now now').
  - intros envs i rest.
    pose proof (process_files_count cfg envs rest (S i) st) as C.
    cbn [process_files].
    rewrite (process_invalid cfg (envs i) st file_path H).
    destruct (process_files cfg envs (S i) rest st) as [[[m|] st2] t2];
      unfold returned, state_after in *; simpl in *.
    + split; [reflexivity|]. split; [reflexivity|].
      intros n E. inversion E. subst n. specialize (C m eq_refl). lia.
    + split; [reflexivity|]. split; [reflexivity|]. discriminate.
Qed.

End ValidationFacts.

(** ** The simulator: [simulate_bets] *)

Module SimulatorFacts.

Import Pandas BetSimulator.

Lemma In_unique x l : In x (unique l) <-> In x l.
Proof.
  induction l as [|y l IH]; simpl; [tauto|].
  rewrite filter_In, IH, negb_true_iff, String.eqb_neq.
  destruct (string_dec y x) as [->|N]; [tauto|].
  split; [tauto|]. intros [H|H]; [contradiction|]. right. split; congruence.
Qed.

Lemma In_merge b r bs rs :
  In (b, r) (merge bs rs) <-> In b bs /\ In r rs /\ joins b r = true.
Proof.
  unfold merge. rewrite in_flat_map. split.
  - intros (b' & Hb & H). apply in_map_iff in H.
    destruct H as (r' & E & H). inversion E; subst.
    apply filter_In in H. tauto.
  - intros (Hb & Hr & J). exists b. split; [assumption|].
    apply in_map. apply filter_In. tauto.
Qed.

(** The log holds one entry for each pair of rows that the merge
    joins, and nothing else. *)
Lemma In_simulation_log s top_n_success e :
  In e (simulation_log s top_n_success) <->
  exists b r,
    In b (betting_df s) /\ In r (results_df s) /\ joins b r = true /\
    e = settle (bet_amount s) top_n_success (b_Race_Name b) (b, r).
Proof.
  unfold simulation_log, races, race_entries. rewrite in_flat_map. split.
  - intros (race_name & _ & H). apply in_map_iff in H.
    destruct H as ([b r] & <- & H). unfold race_data in H.
    apply filter_In in H. destruct H as [H E].
    apply String.eqb_eq in E. unfold race_of in E. simpl in E. subst.
    apply In_merge in H. exists b, r. tauto.
  - intros (b & r & Hb & Hr & J & ->).
    assert (M : In (b, r) (merge (betting_df s) (results_df s)))
      by (apply In_merge; tauto).
    exists (b_Race_Name b). split.
    + apply In_unique. apply in_map_iff. exists (b, r). auto.
    + apply in_map. unfold race_data. apply filter_In. split; [assumption|].
      apply String.eqb_refl.
Qed.

Lemma le_nan_iff x y :
  le_nan x y = true <-> exists p, x = Some p /\ (p <= y)%Q.
Proof.
  unfold le_nan. destruct x as [v|].
  - rewrite Qle_bool_iff. split; [eauto|].
    intros (p & E & H). now inversion E.
  - split; [discriminate|]. intros (p & E & _). discriminate.
Qed.

(** C3.  The simulation log holds exactly one entry for each joined
    (recommendation, result) row.  The entry is a [WIN] if and only if
    the actual position is at most the threshold; its profit is
    [Quote * bet_amount - bet_amount] on a [WIN] and [- bet_amount] on
    a [LOSS].  The threshold is 3 by default.  With a stake of 10, odds
    of 5 and threshold 3, position 2 is a [WIN] with profit 40 and
    position 5 a [LOSS] with profit -10. *)
Theorem settled_bet_outcome_and_profit :
  forall (s : simulator) (top_n_success : Q),
    (forall e,
        In e (simulation_log s top_n_success) <->
        exists b r,
          In b (betting_df s) /\ In r (results_df s) /\ joins b r = true /\
          e = settle (bet_amount s) top_n_success (b_Race_Name b) (b, r))
    /\
    (forall race_name b r,
        let e := settle (bet_amount s) top_n_success race_name (b, r) in
        (Outcome e = WIN <->
         exists p, r_Actual_Position r = Some p /\ (p <= top_n_success)%Q) /\
        (Outcome e = WIN ->
         Profit_Loss e = (b_Quote b * bet_amount s - bet_amount s)%Q) /\
        (Outcome e <> WIN ->
         Outcome e = LOSS /\ Profit_Loss e = (- bet_amount s)%Q))
    /\
    Evaluator.success_threshold Evaluator.default_config = 3
    /\
    (let e := settle 10 3 "Bahrain GP"
                     (Samples.bet "Max Verstappen" "Bahrain GP" 5,
                      Samples.result "Max Verstappen" 2) in
     Outcome e = WIN /\ Profit_Loss e = 40)
    /\
    (let e := settle 10 3 "Bahrain GP"
                     (Samples.bet "Max Verstappen" "Bahrain GP" 5,
                      Samples.result "Max Verstappen" 5) in
     Outcome e = LOSS /\ Profit_Loss e = -10).
Proof.
  intros s top_n_success.
  split; [intros e; apply In_simulation_log|].
  split; [|split; [reflexivity|split; split; reflexivity]].
  intros race_name b r. cbn zeta. unfold settle. cbn [Outcome Profit_Loss].
  rewrite <- le_nan_iff.
  destruct (le_nan (r_Actual_Position r) top_n_success).
  - repeat split; congruence.
  - repeat split; congruence.
Qed.

End SimulatorFacts.

(** ** The capital series of [update_profit_graph] *)

Module GraphFacts.

Import Pandas Terms Evaluator.

Lemma In_insert_key x k ks : In x (insert_key k ks) <-> x = k \/ In x ks.
Proof.
  induction ks as [|h t IH]; simpl; [intuition|].
  destruct (String.eqb k h) eqn:E.
  - apply String.eqb_eq in E. subst. simpl. intuition.
  - destruct (String.leb k h); simpl; [intuition|]. rewrite IH. intuition.
Qed.

Lemma In_group_keys k df : In k (group_keys df) <-> In k (map Race_Name df).
Proof.
  unfold group_keys. induction (map Race_Name df) as [|h t IH]; simpl; [tauto|].
  rewrite In_insert_key, IH. intuition.
Qed.

Lemma Sorted_insert_key k ks :
  Sorted leb_true ks -> Sorted leb_true (insert_key k ks).
Proof.
  induction ks as [|h t IH]; simpl; intros S.
  - repeat constructor.
  - destruct (String.eqb k h); [assumption|].
    destruct (String.leb k h) eqn:L.
    + constructor; [assumption|]. constructor. exact L.
    + inversion S as [|? ? St Hd]; subst.
      constructor; [now apply IH|].
      assert (Hk : leb_true h k).
      { destruct (String.leb_total k h) as [H|H]; [congruence|exact H]. }
      destruct t as [|h' t']; simpl; [now constructor|].
      destruct (String.eqb k h'); [assumption|].
      destruct (String.leb k h'); constructor; [exact Hk|].
      now inversion Hd.
Qed.

(** The races of the series are in ascending order of their names. *)
Lemma Sorted_group_keys df : Sorted leb_true (group_keys df).
Proof.
  unfold group_keys. induction (map Race_Name df) as [|h t IH]; simpl.
  - constructor.
  - now apply Sorted_insert_key.
Qed.

Lemma Qsum_app xs ys : (Qsum (xs ++ ys) == Qsum xs + Qsum ys)%Q.
Proof.
  induction xs as [|x xs IH]; simpl; [lra|]. rewrite IH. lra.
Qed.

Lemma cumsum_from_nth s :
  forall acc k r c,
    nth_error (cumsum_from acc s) k = Some (r, c) ->
    exists v,
      nth_error s k = Some (r, v) /\
      (c == acc + Qsum (map snd (firstn (S k) s)))%Q.
Proof.
  induction s as [|[r0 v0] t IH]; intros acc k r c H.
  - destruct k; discriminate.
  - destruct k as [|k]; simpl in H.
    + inversion H; subst. exists v0. split; [reflexivity|]. simpl. lra.
    + apply IH in H. destruct H as (v & E & H). exists v.
      split; [exact E|]. rewrite H.
      change (firstn (S (S k)) ((r0, v0) :: t))
        with ((r0, v0) :: firstn (S k) t).
      simpl. lra.
Qed.

Lemma cumsum_nth s k r c :
  nth_error (cumsum s) k = Some (r, c) ->
  exists v,
    nth_error s k = Some (r, v) /\
    (c == Qsum (map snd (firstn (S k) s)))%Q.
Proof.
  destruct s as [|[r0 v0] t]; [destruct k; discriminate|].
  destruct k as [|k]; simpl.
  - intros H. inversion H; subst. exists c. split; [reflexivity|]. lra.
  - intros H. apply cumsum_from_nth in H. destruct H as (v & E & H).
    exists v. split; [exact E|]. rewrite H. simpl. lra.
Qed.

Lemma cumsum_from_length acc s :
  List.length (cumsum_from acc s) = List.length s.
Proof.
  revert acc. induction s as [|[r v] t IH]; intros acc; simpl; [reflexivity|].
  now rewrite IH.
Qed.

Lemma total_capitals_length cfg df :
  List.length (total_capitals cfg df) = List.length (group_keys df).
Proof.
  unfold total_capitals, groupby_sum. rewrite length_map.
  destruct (group_keys df) as [|k t]; simpl; [reflexivity|].
  now rewrite cumsum_from_length, length_map.
Qed.

(** The value of the series at its [k]-th race is the starting capital
    plus the summed profit of the races up to the [k]-th, the races
    being taken in ascending order of their names. *)
Lemma total_capitals_nth cfg df k race c :
  nth_error (total_capitals cfg df) k = Some (race, c) ->
  nth_error (group_keys df) k = Some race /\
  (c == starting_capital cfg
        + Qsum (map (group_sum df) (firstn (S k) (group_keys df))))%Q.
Proof.
  unfold total_capitals. rewrite nth_error_map.
  destruct (nth_error (cumsum (groupby_sum df)) k) as [[r c0]|] eqn:E;
    [|discriminate].
  simpl. intros H. inversion H; subst. clear H.
  apply cumsum_nth in E. destruct E as (v & E & H).
  unfold groupby_sum in E, H. rewrite nth_error_map in E.
  destruct (nth_error (group_keys df) k) as [r'|] eqn:K; [|discriminate].
  simpl in E. inversion E; subst. split; [reflexivity|].
  rewrite H, firstn_map, map_map. cbn [snd].
  set (x := Qsum _). lra.
Qed.

Lemma firstn_S_nth {A} (l : list A) k x :
  nth_error l k = Some x -> firstn (S k) l = firstn k l ++ [x].
Proof.
  revert k. induction l as [|y l IH]; intros [|k] H; try discriminate.
  - inversion H. reflexivity.
  - simpl in H. change (firstn (S (S k)) (y :: l)) with (y :: firstn (S k) l).
    rewrite (IH k H). reflexivity.
Qed.

(** Each value of the series is the previous one plus the summed profit
    of its own race. *)
Lemma total_capitals_step cfg df k race c race' c' :
  nth_error (total_capitals cfg df) k = Some (race, c) ->
  nth_error (total_capitals cfg df) (S k) = Some (race', c') ->
  (c' == c + group_sum df race')%Q.
Proof.
  intros H H'. apply total_capitals_nth in H, H'.
  destruct H as [_ H]. destruct H' as [K' H'].
  rewrite H', H, (firstn_S_nth _ _ _ K'), map_app, Qsum_app. simpl. lra.
Qed.

(** C4 (at a log of three races).  The series that
    [update_profit_graph] draws takes the races in ascending order of
    their names, not in the order in which they first occur in the
    log: from a log whose races are, in order of arrival, Bahrain,
    Saudi and Australia, it accumulates Australia first. *)
Theorem total_capitals_races_sorted_by_name :
  unique (map Race_Name Samples.three_races_log)
  = ["Bahrain GP"; "Saudi GP"; "Australia GP"]%string /\
  total_capitals default_config Samples.three_races_log
  = [("Australia GP"%string, 1040); ("Bahrain GP"%string, 1080);
     ("Saudi GP"%string, 1070)].
Proof.
  split; vm_compute; reflexivity.
Qed.

End GraphFacts.

(** ** The schedule and the clock policy *)

Module MonitorFacts.

Import Monitor Schedule.

Lemma hd_insert_by_time x l :
  hd_error (insert_by_time x l)
  = match hd_error l with
    | None => Some x
    | Some y => if Z.leb (snd x) (snd y) then Some x else Some y
    end.
Proof.
  destruct l as [|y t]; simpl; [reflexivity|].
  destruct (Z.leb (snd x) (snd y)); reflexivity.
Qed.

Lemma hd_sort_by_time l : hd_error (sort_by_time l) = earliest l.
Proof.
  induction l as [|x l IH]; simpl; [reflexivity|].
  now rewrite hd_insert_by_time, IH.
Qed.

Lemma earliest_None l : earliest l = None -> l = [].
Proof.
  destruct l as [|x l]; simpl; [reflexivity|].
  destruct (earliest l) as [y|]; [|discriminate].
  destruct (Z.leb (snd x) (snd y)); discriminate.
Qed.

(** The earliest element: everything before it is strictly later,
    everything after it is not earlier. *)
Lemma earliest_Some l :
  forall x,
    earliest l = Some x ->
    exists l1 l2,
      l = l1 ++ x :: l2 /\
      (forall y, In y l1 -> (snd x < snd y)%Z) /\
      (forall y, In y l2 -> (snd x <= snd y)%Z).
Proof.
  induction l as [|a l IH]; intros x H; simpl in H; [discriminate|].
  destruct (earliest l) as [y|] eqn:E.
  - destruct (IH y eq_refl) as (m1 & m2 & -> & H1 & H2).
    destruct (Z.leb (snd a) (snd y)) eqn:L; inversion H; subst.
    + apply Z.leb_le in L. exists [], (m1 ++ y :: m2).
      split; [reflexivity|]. split; [intros ? []|].
      intros z Hz. apply in_app_or in Hz.
      destruct Hz as [Hz|[<-|Hz]].
      * specialize (H1 z Hz). lia.
      * exact L.
      * specialize (H2 z Hz). lia.
    + apply Z.leb_gt in L. exists (a :: m1), m2.
      split; [reflexivity|]. split; [|exact H2].
      intros z [<-|Hz]; [exact L|now apply H1].
  - apply earliest_None in E. subst. inversion H; subst.
    exists [], []. split; [reflexivity|]. split; intros ? [].
Qed.

Lemma all_naive_cons r races :
  all_naive (r :: races) -> all_naive races.
Proof. intros H x Hx. apply H. now right. Qed.

(** On a schedule without offsets the loop does not raise. *)
Lemma upcoming_races_naive now races :
  all_naive races -> exists u, upcoming_races now races = Some u.
Proof.
  induction races as [|r races IH]; intros H; simpl; [eauto|].
  destruct (IH (all_naive_cons _ _ H)) as (u & E).
  destruct (H r (or_introl eq_refl)) as [N|(t & N)]; rewrite N, ?E; eauto.
Qed.

Lemma In_upcoming_races now races :
  forall u r t,
    upcoming_races now races = Some u ->
    (In (r, t) u <-> In r races /\ starts_after now r t).
Proof.
  unfold starts_after.
  induction races as [|a races IH]; intros u r t H; simpl in H.
  - inversion H. simpl. tauto.
  - destruct (race_date a) as [[ta|ta|]|] eqn:D; try discriminate.
    + destruct (upcoming_races now races) as [u'|]; [|discriminate].
      specialize (IH u' r t eq_refl).
      destruct (Z.ltb now ta) eqn:L; inversion H; subst; simpl; rewrite IH.
      * apply Z.ltb_lt in L. split.
        -- intros [E|K]; [inversion E; subst; auto|tauto].
        -- intros [[->|K] [Dr Lt]]; [left; congruence|tauto].
      * apply Z.ltb_ge in L. split; [tauto|].
        intros [[->|K] [Dr Lt]]; [|tauto].
        rewrite D in Dr. inversion Dr; subst. lia.
    + rewrite (IH u r t H). simpl. split; [tauto|].
      intros [[->|K] [Dr Lt]]; [congruence|tauto].
Qed.

(** A split of the collected list is a split of the schedule. *)
Lemma upcoming_races_split now races :
  forall u1 x u2,
    upcoming_races now races = Some (u1 ++ x :: u2) ->
    exists l1 l2,
      races = l1 ++ fst x :: l2 /\
      upcoming_races now l1 = Some u1 /\
      upcoming_races now l2 = Some u2.
Proof.
  induction races as [|a races IH]; intros u1 x u2 H; simpl in H.
  - inversion H. destruct u1; discriminate.
  - destruct (race_date a) as [[ta|ta|]|] eqn:D; try discriminate.
    + destruct (upcoming_races now races) as [u'|] eqn:U; [|discriminate].
      destruct (Z.ltb now ta) eqn:L; inversion H as [E]; subst.
      * destruct u1 as [|y u1]; simpl in E; inversion E; subst.
        -- exists [], races. simpl. auto.
        -- destruct (IH u1 x u2 eq_refl) as (l1 & l2 & -> & H1 & H2).
           exists (a :: l1), l2. simpl. rewrite D, H1, L. auto.
      * destruct (IH u1 x u2 eq_refl) as (l1 & l2 & -> & H1 & H2).
        exists (a :: l1), l2. simpl. rewrite D, H1, L. auto.
    + destruct (IH u1 x u2 H) as (l1 & l2 & -> & H1 & H2).
      exists (a :: l1), l2. simpl. rewrite D. auto.
Qed.

(** On a schedule whose dates have no UTC offset, [get_next_race]
    returns the first race, in the order of the schedule, among those
    with the earliest start after [now], and nothing when no race
    starts after [now]. *)
Lemma get_next_race_naive races now :
  all_naive races ->
  match get_next_race races now with
  | Some (r, t) =>
      exists l1 l2,
        races = l1 ++ r :: l2 /\
        starts_after now r t /\
        (forall r' t', In r' l1 -> starts_after now r' t' -> (t < t')%Z) /\
        (forall r' t', In r' l2 -> starts_after now r' t' -> (t <= t')%Z)
  | None => forall r t, In r races -> ~ starts_after now r t
  end.
Proof.
  intros H. unfold get_next_race.
  destruct (upcoming_races_naive now races H) as (u & U). rewrite U.
  pose proof (hd_sort_by_time u) as Hd.
  destruct (sort_by_time u) as [|[r t] rest]; simpl in Hd; symmetry in Hd.
  - apply earliest_None in Hd. subst.
    intros r t Hr S.
    apply (In_upcoming_races now races [] r t U). auto.
  - apply earliest_Some in Hd. destruct Hd as (u1 & u2 & -> & H1 & H2).
    destruct (upcoming_races_split now races _ _ _ U)
      as (l1 & l2 & -> & U1 & U2).
    exists l1, l2. simpl. split; [reflexivity|]. split.
    + apply (In_upcoming_races now _ _ r t U).
      apply in_or_app. right. now left.
    + split; intros r' t' Hr' S.
      * apply (H1 (r', t')). apply (In_upcoming_races now l1 u1 r' t' U1). auto.
      * apply (H2 (r', t')). apply (In_upcoming_races now l2 u2 r' t' U2). auto.
Qed.

(** One date with a UTC offset makes the call return nothing. *)
Lemma get_next_race_aware races now r t :
  In r races -> race_date r = Some (Aware t) -> get_next_race races now = None.
Proof.
  intros Hr D. unfold get_next_race.
  assert (U : upcoming_races now races = None).
  { induction races as [|a races IH]; [destruct Hr|].
    simpl. destruct Hr as [->|Hr].
    - now rewrite D.
    - rewrite (IH Hr). destruct (race_date a) as [[| |]|]; reflexivity. }
  now rewrite U.
Qed.

(** C9 (at a schedule with a UTC date).  The schedule holds one race,
    dated ["2025-03-16T15:00:00Z"], and [now] is eleven days earlier:
    [get_next_race] returns nothing although that race is the next
    one.  With the date stored without an offset the race is returned,
    and of two races with that start time the first of the schedule. *)
Theorem get_next_race_utc_date :
  get_next_race Samples.utc_schedule Samples.early_march = None /\
  (exists r t,
      In r Samples.utc_schedule /\
      race_date r = Some (Aware t) /\ (Samples.early_march < t)%Z) /\
  option_map (fun x => race_name (fst x))
             (get_next_race Samples.naive_schedule Samples.early_march)
  = Some "Bahrain Grand Prix"%string.
Proof.
  split; [reflexivity|]. split; [|reflexivity].
  eexists. eexists. split; [left; reflexivity|].
  split; [reflexivity|]. reflexivity.
Qed.

Lemma hours_until_race_before race_time d :
  hours_until_race race_time (race_time - d) = inject_Z d / 1000000 / 3600.
Proof.
  unfold hours_until_race. now replace (race_time - (race_time - d))%Z with d by lia.
Qed.

Lemma should_generate_predictions_iff cfg race_time now :
  should_generate_predictions cfg race_time now = true <->
  (Qabs (hours_until_race race_time now - prediction_hours_before_race cfg)
   <= 1)%Q.
Proof. unfold should_generate_predictions. apply Qle_bool_iff. Qed.

Lemma should_fetch_odds_iff cfg race_time now :
  should_fetch_odds cfg race_time now = true <->
  exists fetch_time,
    In fetch_time (odds_fetch_hours_before_race cfg) /\
    (Qabs (hours_until_race race_time now - fetch_time) <= 1)%Q.
Proof.
  unfold should_fetch_odds. rewrite existsb_exists.
  split; intros (h & Hh & H); exists h; split; auto; now apply Qle_bool_iff.
Qed.

(** C5 (as the code has it).  Predictions are due exactly when the
    hours until the race are within one hour of the configured offset,
    and odds are due exactly when they are within one hour of one of
    the configured offsets; both ends of the window belong to it.  For
    the offset of 24 hours the action is due 25 hours and 24 hours
    before the start, and not due 22.9 hours before it. *)
Theorem due_within_one_hour_of_offset :
  forall (cfg : config) (race_time now : Z),
    (should_generate_predictions cfg race_time now = true <->
     (Qabs (hours_until_race race_time now
            - prediction_hours_before_race cfg) <= 1)%Q)
    /\
    (should_fetch_odds cfg race_time now = true <->
     exists fetch_time,
       In fetch_time (odds_fetch_hours_before_race cfg) /\
       (Qabs (hours_until_race race_time now - fetch_time) <= 1)%Q)
    /\
    prediction_hours_before_race default_config = 24
    /\
    should_generate_predictions default_config race_time
      (race_time - 25 * hour) = true
    /\
    should_generate_predictions default_config race_time
      (race_time - 24 * hour) = true
    /\
    should_generate_predictions default_config race_time
      (race_time - (22 * hour + 9 * tenth_of_hour)) = false
    /\
    should_fetch_odds default_config race_time
      (race_time - 25 * hour) = true
    /\
    should_fetch_odds default_config race_time
      (race_time - 24 * hour) = true
    /\
    should_fetch_odds default_config race_time
      (race_time - (22 * hour + 9 * tenth_of_hour)) = false.
Proof.
  intros cfg race_time now.
  split; [apply should_generate_predictions_iff|].
  split; [apply should_fetch_odds_iff|].
  split; [reflexivity|].
  unfold should_generate_predictions, should_fetch_odds.
  rewrite !hours_until_race_before.
  repeat split; vm_compute; reflexivity.
Qed.

(** C5, the instance that the code decides the other way: 25 hours
    before the start, with the offset of 24 hours, the action is due. *)
Lemma due_25_hours_before :
  should_generate_predictions default_config Samples.race_start
    (Samples.race_start - 25 * hour) = true /\
  should_fetch_odds default_config Samples.race_start
    (Samples.race_start - 25 * hour) = true.
Proof. split; vm_compute; reflexivity. Qed.

End MonitorFacts.

(** ** Instances *)

Module Instances.

Import Terms Evaluator Samples.

Local Open Scope string_scope.

(** C1 at a log that does not exist yet and a batch that is appended
    again after a correction. *)
Lemma master_log_one_row_per_pair_witness :
  NoDup (map key (existing_log bahrain_state)) /\
  (NoDup (map key (existing_log (appends bahrain_state reprocessed_batches))) /\
   (forall r,
       In r (existing_log (appends bahrain_state reprocessed_batches)) <->
       last_with_key (key r)
         (existing_log bahrain_state ++ appended reprocessed_batches)
       = Some r)).
Proof.
  split; [constructor|].
  apply (MasterLogFacts.master_log_one_row_per_pair
           bahrain_state reprocessed_batches).
  constructor.
Defined.



(** C6: the graph could not be saved, and the file was archived and
    recorded all the same.  An archive move is therefore not always
    preceded by a successful regeneration of the series. *)
Lemma archived_after_failed_graph :
  effects_of
    (process_new_race_results default_config env_graph_fails bahrain_state
                              "bahrain_results.csv")
  = [Processing "bahrain_results.csv"; LedgerAppend 2; GraphFailed;
     Archived "bahrain_results.csv"
              "20250316_180000_Bahrain_GP_bahrain_results.csv";
     Registered "bahrain_results.csv"] /\
  profit_graph_file
    (state_after
       (process_new_race_results default_config env_graph_fails bahrain_state
                                 "bahrain_results.csv"))
  = None /\
  processed_races_file
    (state_after
       (process_new_race_results default_config env_graph_fails bahrain_state
                                 "bahrain_results.csv"))
  = Some ["bahrain_results.csv"] /\
  ~ (forall cfg e st file_path archived,
        In (Archived file_path archived)
           (effects_of (process_new_race_results cfg e st file_path)) ->
        In GraphSaved
           (effects_of (process_new_race_results cfg e st file_path))).
Proof.
  split; [reflexivity|]. split; [reflexivity|]. split; [reflexivity|].
  intros H.
  specialize (H default_config env_graph_fails bahrain_state
                "bahrain_results.csv"
                "20250316_180000_Bahrain_GP_bahrain_results.csv").
  assert (A : In GraphSaved
                 (effects_of
                    (process_new_race_results default_config env_graph_fails
                       bahrain_state "bahrain_results.csv"))).
  { apply H. vm_compute. right. right. right. left. reflexivity. }
  vm_compute in A.
  repeat (destruct A as [A|A]; [discriminate|]). exact A.
Qed.

(** C7 at a results file without the column [Actual_Position]. *)
Lemma invalid_file_changes_nothing_witness :
  (read_csv broken_state "bahrain_results.csv" = None \/
   exists columns rows,
     read_csv broken_state "bahrain_results.csv" = Some (columns, rows) /\
     (~ In "Driver" columns \/ ~ In "Actual_Position" columns)) /\
  process_new_race_results default_config env_ok broken_state
                           "bahrain_results.csv"
  = (Returns false, broken_state, [Processing "bahrain_results.csv"]).
Proof.
  assert (H : read_csv broken_state "bahrain_results.csv" = None \/
              exists columns rows,
                read_csv broken_state "bahrain_results.csv"
                = Some (columns, rows) /\
                (~ In "Driver" columns \/ ~ In "Actual_Position" columns)).
  { right. exists ["Driver"; "Position"], [result "Max Verstappen" 2].
    split; [reflexivity|]. right.
    intros [E|[E|[]]]; discriminate. }
  split; [exact H|].
  exact (proj1 (ValidationFacts.invalid_file_changes_nothing
                  default_config env_ok broken_state
                  "bahrain_results.csv" H)).
Defined.

End Instances.

(** ** What a call of [process_new_race_results] leaves alone *)

Module ProcessMore.

Import Pandas Terms MoreTerms LedgerFacts PyStr PyStrFacts Evaluator.
Import MasterLogFacts ProcessFacts WatcherFacts.

(** A list of effects without an archive move of [file_path]. *)
Lemma no_move_in file_path (t : list event) :
  forallb (fun ev => match ev with Archived _ _ => false | _ => true end) t
  = true ->
  forall archived, ~ In (Archived file_path archived) t.
Proof.
  intros H archived I. rewrite forallb_forall in H.
  specialize (H _ I). discriminate.
Qed.

(** The recommendations, the registry, the watch directory and the
    archive after a call: nothing of them has changed when the call
    stopped before the registry, and when it went on the name of the
    file was recorded and the file was moved or left where it was. *)
Lemma process_frame cfg e st file_path r st' t :
  process_new_race_results cfg e st file_path = (r, st', t) ->
  betting_recommendations_file st' = betting_recommendations_file st /\
  ((r <> Returns true /\
    processed_races st' = processed_races st /\
    processed_races_file st' = processed_races_file st /\
    watch_directory st' = watch_directory st /\
    archive_directory st' = archive_directory st /\
    (forall archived, ~ In (Archived file_path archived) t))
   \/
   (processed_races st' = processed_races st ++ [file_path] /\
    (r = Returns true -> processed_races_file st' = Some (processed_races st')) /\
    ((watch_directory st' = watch_directory st /\
      archive_directory st' = archive_directory st /\
      (forall archived, ~ In (Archived file_path archived) t))
     \/
     (exists entries f archived,
         watch_directory st = Some entries /\
         lookup entries file_path = Some f /\
         watch_directory st' = Some (remove_file file_path entries) /\
         archive_directory st' = (archived, content f) :: archive_directory st)))).
Proof.
  intros H. apply process_shape in H.
  destruct H as [(Hr & -> & ->)|H].
  { split; [reflexivity|]. left.
    split; [exact Hr|]. repeat (split; [reflexivity|]).
    now apply no_move_in. }
  destruct H as (columns & rows & bet_columns & betting_df & st2 & g
                 & _ & _ & _ & _ & _ & G & E).
  pose proof (update_profit_graph_frame _ _ _ _ _ G)
    as (W2 & B2 & _ & A2 & P2 & S2).
  simpl in W2, B2, A2, P2, S2.
  apply update_profit_graph_after_append in G.
  assert (Hg : g = [GraphSaved] \/ g = [GraphFailed]) by tauto.
  destruct E as [(_ & Hr & -> & ->)|(st3 & a & A & -> & S)].
  - split; [exact B2|]. left.
    split; [exact Hr|]. repeat (split; [assumption|]).
    destruct Hg as [-> | ->]; now apply no_move_in.
  - pose proof (archive_processed_file_frame _ _ _ _ _ _ A)
      as (B3 & _ & _ & P3 & _).
    assert (F : betting_recommendations_file st'
                = betting_recommendations_file st3 /\
                processed_races st' = processed_races st3 ++ [file_path] /\
                watch_directory st' = watch_directory st3 /\
                archive_directory st' = archive_directory st3 /\
                (r = Returns true ->
                 processed_races_file st' = Some (processed_races st'))).
    { destruct S as [[Hr ->]| ->]; simpl; repeat split; auto.
      intros ->. now elim Hr. }
    destruct F as (B' & P' & W' & A' & S').
    split; [congruence|]. right.
    split; [congruence|]. split; [exact S'|].
    apply archive_processed_file_cases in A.
    destruct A as [[-> ->]|(entries & f & W & L & _ & -> & ->)].
    + left. split; [congruence|]. split; [congruence|].
      destruct Hg as [-> | ->]; now apply no_move_in.
    + right. exists entries, f. eexists.
      rewrite W', A'. simpl. rewrite <- W2, <- A2. auto.
Qed.

Lemma lookup_In entries file_path f :
  lookup entries file_path = Some f -> In f entries /\ file_name f = file_path.
Proof.
  unfold lookup. intros H. apply find_some in H.
  destruct H as [H E]. apply String.eqb_eq in E. auto.
Qed.

Lemma In_remove_file g file_path entries :
  In g (remove_file file_path entries) <->
  In g entries /\ file_name g <> file_path.
Proof.
  unfold remove_file. rewrite filter_In, negb_true_iff, String.eqb_neq. tauto.
Qed.

(** X1.  A call of [process_new_race_results] on a file changes nothing
    but what belongs to that file: the recommendations are as before,
    every other entry of the watch directory stays and no entry is
    added, the archive is as before or has gained the content of the
    file, and the registry is as before or has gained its name. *)
Theorem process_touches_its_file_only :
  forall (cfg : config) (e : env) (st : state) (file_path : string),
    let st' := state_after (process_new_race_results cfg e st file_path) in
    betting_recommendations_file st' = betting_recommendations_file st /\
    (forall g, In g (watched st') -> In g (watched st)) /\
    (forall g, file_name g <> file_path -> In g (watched st) ->
               In g (watched st')) /\
    (archive_directory st' = archive_directory st \/
     exists archived f,
       In f (watched st) /\ file_name f = file_path /\
       archive_directory st' = (archived, content f) :: archive_directory st) /\
    (processed_races st' = processed_races st \/
     processed_races st' = processed_races st ++ [file_path]).
Proof.
  intros cfg e st file_path.
  destruct (process_new_race_results cfg e st file_path) as [[r st'] t] eqn:H.
  unfold state_after. simpl.
  apply process_frame in H. destruct H as (B & H).
  split; [exact B|].
  destruct H as [(_ & P & _ & W & A & _)|(P & _ & H)].
  { unfold watched. rewrite W. repeat split; auto. }
  destruct H as [(W & A & _)|(entries & f & archived & W0 & L & W & A)].
  - unfold watched. rewrite W. repeat split; auto.
  - apply lookup_In in L. destruct L as [Lf Ln].
    unfold watched. rewrite W, W0. repeat split.
    + intros g Hg. apply In_remove_file in Hg. tauto.
    + intros g Hn Hg. apply In_remove_file. tauto.
    + right. exists archived, f. auto.
    + right. exact P.
Qed.

Lemma detect_not_registered cfg now st name :
  In name (processed_races st) ->
  ~ In name (fst (detect_new_race_files cfg now st)).
Proof.
  intros R H. apply detect_In in H.
  destruct H as (f & _ & _ & _ & N & _). contradiction.
Qed.

Lemma process_true_registered cfg e st file_path st' t :
  process_new_race_results cfg e st file_path = (Returns true, st', t) ->
  In file_path (processed_races st') /\
  processed_races_file st' = Some (processed_races st').
Proof.
  intros H. apply process_frame in H.
  destruct H as (_ & [(Hr & _)|(P & S & _)]); [now elim Hr|].
  split; [|now apply S]. rewrite P. apply in_or_app. right. now left.
Qed.

(** X2.  After a call that returned [True] the name of the file is in
    the registry, in memory and in [processed_races.json].  A scan does
    not return it again, neither in the same evaluator nor in a new one
    that loads the registry, whatever the patterns and the time. *)
Theorem processed_file_is_not_offered_again :
  forall (cfg cfg' : config) (e : env) (st st' : state)
         (file_path : string) (t : list event) (now : Q),
    process_new_race_results cfg e st file_path = (Returns true, st', t) ->
    In file_path (processed_races st') /\
    Startup.load_processed_races true st' = processed_races st' /\
    ~ In file_path (fst (detect_new_race_files cfg' now st')) /\
    ~ In file_path
         (fst (detect_new_race_files cfg' now (Startup.restart true st'))).
Proof.
  intros cfg cfg' e st st' file_path t now H.
  apply process_true_registered in H. destruct H as [R S].
  assert (L : Startup.load_processed_races true st' = processed_races st').
  { unfold Startup.load_processed_races. now rewrite S. }
  split; [exact R|]. split; [exact L|]. split.
  - now apply detect_not_registered.
  - apply detect_not_registered. unfold Startup.restart. simpl. now rewrite L.
Qed.

(** X3.  Once a call has moved a file to the archive, a further call on
    that file, in any surroundings, returns [False] and changes
    nothing: the file cannot be settled a second time from the watch
    directory. *)
Theorem archived_file_is_not_processed_again :
  forall (cfg cfg' : config) (e e' : env) (st st' : state)
         (file_path archived : string) (r : completion bool)
         (t : list event),
    process_new_race_results cfg e st file_path = (r, st', t) ->
    In (Archived file_path archived) t ->
    process_new_race_results cfg' e' st' file_path
    = (Returns false, st', [Processing file_path]).
Proof.
  intros cfg cfg' e e' st st' file_path archived r t H A.
  apply process_invalid. apply validate_false_iff. left.
  apply process_frame in H.
  destruct H as (_ & [(_ & _ & _ & _ & _ & N)|(_ & _ & H)]);
    [now elim (N archived)|].
  destruct H as [(_ & _ & N)|(entries & f & a & _ & _ & W & _)];
    [now elim (N archived)|].
  unfold read_csv. now rewrite W, lookup_remove_file.
Qed.

(** The rows that a call appends all belong to the race it derived from
    the file. *)
Lemma new_data_race cfg e st file_path betting_df columns rows r :
  In r (new_data cfg e st file_path betting_df columns rows) ->
  Race_Name r = extract_race_name_from_file e st file_path.
Proof.
  unfold new_data. intros H.
  apply SimulatorFacts.In_simulation_log in H.
  destruct H as (b & x & Hb & _ & _ & ->).
  unfold make_simulator in Hb. simpl in Hb.
  apply filter_In in Hb. destruct Hb as [_ E].
  apply String.eqb_eq in E. exact E.
Qed.

Lemma filter_filter_implies {A} (p q : A -> bool) l :
  (forall x, In x l -> p x = true -> q x = true) ->
  filter p (filter q l) = filter p l.
Proof.
  induction l as [|x l IH]; intros H; simpl; [reflexivity|].
  destruct (q x) eqn:Q; simpl.
  - destruct (p x); rewrite IH; auto; intros y Hy; apply H; now right.
  - destruct (p x) eqn:P.
    + rewrite (H x (or_introl eq_refl) P) in Q. discriminate.
    + apply IH. intros y Hy. apply H. now right.
Qed.

Lemma filter_none {A} (p : A -> bool) l :
  (forall x, In x l -> p x = false) -> filter p l = [].
Proof.
  induction l as [|x l IH]; intros H; simpl; [reflexivity|].
  rewrite (H x (or_introl eq_refl)). apply IH. intros y Hy. apply H. now right.
Qed.

(** X4.  Processing a results file leaves the rows that the master log
    holds for other races exactly as they were, in content and in
    order: only rows of the race derived from the file are added or
    replaced.  (The log has at most one row per race and driver, as
    every log written by [update_master_log] has.) *)
Theorem process_leaves_other_races :
  forall (cfg : config) (e : env) (st : state) (file_path : string),
    NoDup (map key (existing_log st)) ->
    let race_name := extract_race_name_from_file e st file_path in
    let other := fun r => negb (String.eqb (Race_Name r) race_name) in
    filter other
           (existing_log
              (state_after (process_new_race_results cfg e st file_path)))
    = filter other (existing_log st).
Proof.
  intros cfg e st file_path N race_name other.
  destruct (process_new_race_results cfg e st file_path) as [[b st'] t] eqn:H.
  unfold state_after. simpl.
  apply process_fields in H.
  destruct H as [(_ & -> & _)
                |(columns & rows & bet_columns & betting_df & _ & _ & M & _)];
    [reflexivity|].
  unfold existing_log at 1. rewrite M. unfold updated_log.
  set (nd := new_data cfg e st file_path betting_df columns rows).
  assert (Hn : forall r, In r nd -> Race_Name r = race_name).
  { intros r Hr. apply (new_data_race _ _ _ _ _ _ _ _ Hr). }
  rewrite drop_duplicates_last_app, (drop_duplicates_last_NoDup _ N).
  rewrite filter_app.
  rewrite (filter_none other (drop_duplicates_last nd)).
  - rewrite app_nil_r. apply filter_filter_implies.
    intros x _ Hx. unfold not_in. apply negb_true_iff.
    destruct (existsb (same_key x) nd) eqn:E; [|reflexivity].
    apply existsb_exists in E. destruct E as (y & Hy & K).
    apply same_key_iff in K. unfold key in K. inversion K as [[R D]].
    unfold other in Hx. apply negb_true_iff, String.eqb_neq in Hx.
    rewrite R, (Hn y Hy) in Hx. contradiction.
  - intros x Hx. apply In_drop_duplicates_last in Hx.
    unfold other. rewrite (Hn x Hx), String.eqb_refl. reflexivity.
Qed.











(** A call on a file that passes validation, with recommendations that
    cannot be used. *)
Lemma process_unusable cfg e st file_path :
  unusable_recommendations st ->
  validate_race_results_file st file_path = true ->
  process_new_race_results cfg e st file_path
  = (Raises, st, [Processing file_path]).
Proof.
  intros U V. unfold process_new_race_results. rewrite V. cbn [negb].
  assert (R : exists columns rows, read_csv st file_path = Some (columns, rows)).
  { unfold validate_race_results_file in V.
    destruct (read_csv st file_path) as [[columns rows]|]; [eauto|discriminate]. }
  destruct R as (columns & rows & ->).
  destruct U as [->|(bet_columns & betting_df & -> & N)]; [reflexivity|].
  apply mem_false in N. now rewrite N.
Qed.

Lemma process_files_unusable cfg envs new_files :
  forall i st,
    unusable_recommendations st ->
    state_after (process_files cfg envs i new_files st) = st /\
    (existsb (validate_race_results_file st) new_files = false ->
     returned (process_files cfg envs i new_files st) = Returns O /\
     attempts (effects_of (process_files cfg envs i new_files st))
     = new_files) /\
    (forall earlier file_path later,
        new_files = earlier ++ file_path :: later ->
        existsb (validate_race_results_file st) earlier = false ->
        validate_race_results_file st file_path = true ->
        returned (process_files cfg envs i new_files st) = Raises /\
        attempts (effects_of (process_files cfg envs i new_files st))
        = earlier ++ [file_path]).
Proof.
  induction new_files as [|f rest IH]; intros i st U.
  - split; [reflexivity|]. split; [auto|].
    intros earlier file_path later E. now apply app_cons_not_nil in E.
  - cbn [process_files existsb].
    destruct (validate_race_results_file st f) eqn:V.
    + rewrite (process_unusable cfg (envs i) st f U V).
      unfold state_after, returned, effects_of. cbn [fst snd].
      split; [reflexivity|]. split; [discriminate|].
      intros earlier file_path later E X Vf.
      destruct earlier as [|x earlier]; cbn in E; inversion E; subst.
      * auto.
      * cbn [existsb] in X. rewrite V in X. discriminate.
    + rewrite (process_invalid cfg (envs i) st f V).
      destruct (IH (S i) st U) as (S0 & R0 & X0).
      destruct (process_files cfg envs (S i) rest st) as [[count st2] t2].
      unfold state_after, returned, effects_of in *. cbn [fst snd] in *.
      split; [exact S0|]. split.
      * intros Hx. destruct (R0 Hx) as [-> A]. split; [reflexivity|].
        cbn [app]. change (attempts (Processing f :: t2)) with (f :: attempts t2).
        now rewrite A.
      * intros earlier file_path later E X Vf.
        destruct earlier as [|x earlier]; cbn in E; inversion E; subst.
        -- rewrite V in Vf. discriminate.
        -- cbn [existsb] in X. rewrite V in X. cbn [orb] in X.
           destruct (X0 earlier file_path later eq_refl X Vf) as [-> A].
           split; [reflexivity|].
           cbn [app].
           change (attempts (Processing x :: t2)) with (x :: attempts t2).
           now rewrite A.
Qed.

Lemma validate_after_scan cfg now st file_path :
  validate_race_results_file (snd (detect_new_race_files cfg now st)) file_path
  = validate_race_results_file st file_path.
Proof.
  unfold detect_new_race_files, validate_race_results_file, read_csv.
  destruct (watch_directory st) as [entries|] eqn:W; cbn [snd].
  - now rewrite W.
  - reflexivity.
Qed.

(** X20.  When the recommendations file exists but cannot be used by
    [process_new_race_results] (it cannot be read, or it has no column
    [Race_Name]), a call on a results file that passes validation is
    left by an exception, with nothing changed.  A check then changes
    nothing but the watch directory that the scan may create.  It
    returns 0, having attempted every file, when no file of the scan
    passes validation; otherwise an exception leaves it at the first
    file of the scan that passes validation, and the files after that
    one are not attempted. *)
Theorem unusable_recommendations_end_the_check :
  forall (cfg : config) (envs : nat -> env) (now : Q) (st : state),
    unusable_recommendations st ->
    let scan := fst (detect_new_race_files cfg now st) in
    let check := run_single_check cfg envs now st in
    (forall e file_path,
        validate_race_results_file st file_path = true ->
        process_new_race_results cfg e st file_path
        = (Raises, st, [Processing file_path])) /\
    state_after check = snd (detect_new_race_files cfg now st) /\
    (existsb (validate_race_results_file st) scan = false ->
     returned check = Returns O /\ attempts (effects_of check) = scan) /\
    (forall earlier file_path later,
        scan = earlier ++ file_path :: later ->
        existsb (validate_race_results_file st) earlier = false ->
        validate_race_results_file st file_path = true ->
        returned check = Raises /\
        attempts (effects_of check) = earlier ++ [file_path]).
Proof.
  intros cfg envs now st U. cbn zeta.
  split; [intros e file_path; now apply process_unusable|].
  pose proof (validate_after_scan cfg now st) as V.
  unfold run_single_check.
  destruct (detect_new_race_files cfg now st) as [new_files st0] eqn:D.
  cbn [fst snd] in *.
  assert (U0 : unusable_recommendations st0).
  { unfold detect_new_race_files in D.
    destruct (watch_directory st); inversion D; subst; exact U. }
  assert (E : forall l, existsb (validate_race_results_file st0) l
                        = existsb (validate_race_results_file st) l).
  { intros l. induction l as [|x l IHl]; cbn [existsb];
      [reflexivity|now rewrite V, IHl]. }
  destruct (process_files_unusable cfg envs new_files O st0 U0)
    as (S0 & R0 & X0).
  split; [exact S0|]. split.
  - intros H. apply R0. now rewrite E.
  - intros earlier file_path later Hs He Hv.
    apply (X0 earlier file_path later Hs); [now rewrite E|now rewrite V].
Qed.

(** X16.  When a call saved the graph, the saved series is the one
    computed from the master log that the call leaves: graph and log
    agree.  When the regeneration failed, or the call stopped before it,
    the graph file is the one from before the call. *)
Theorem profit_graph_follows_master_log :
  forall (cfg : config) (e : env) (st : state) (file_path : string),
    let r := process_new_race_results cfg e st file_path in
    (In GraphSaved (effects_of r) ->
     profit_graph_file (state_after r)
     = Some (total_capitals cfg (existing_log (state_after r)))) /\
    (~ In GraphSaved (effects_of r) ->
     profit_graph_file (state_after r) = profit_graph_file st).
Proof.
  intros cfg e st file_path. cbn zeta.
  destruct (process_new_race_results cfg e st file_path) as [[b st'] t] eqn:H.
  unfold state_after, effects_of. simpl.
  apply process_shape in H.
  destruct H as [(_ & -> & ->)|H].
  { split; [|reflexivity]. intros [A|[]]. discriminate. }
  destruct H as (c & r & bc & bd & st2 & g & _ & _ & _ & _ & _ & G & E).
  set (L := updated_log (existing_log st) (new_data cfg e st file_path bd c r))
    in *.
  assert (F : profit_graph_file st' = profit_graph_file st2 /\
              master_log_file st' = master_log_file st2 /\
              (In GraphSaved t <-> In GraphSaved g)).
  { destruct E as [(_ & _ & -> & ->)|(st3 & a & A & -> & S)].
    - split; [reflexivity|]. split; [reflexivity|]. simpl.
      split; [intros [I|[I|I]]; [discriminate|discriminate|exact I]|auto].
    - pose proof (archive_processed_file_frame _ _ _ _ _ _ A)
        as (_ & M3 & P3 & _).
      assert (Ha : a = [ArchiveFailed file_path] \/
                   exists archived, a = [Archived file_path archived]).
      { apply archive_processed_file_cases in A.
        destruct A as [[_ ->]|(en & f & _ & _ & _ & _ & ->)]; eauto. }
      assert (F : profit_graph_file st' = profit_graph_file st3 /\
                  master_log_file st' = master_log_file st3).
      { destruct S as [[_ ->]| ->]; simpl; auto. }
      destruct F as (P & M).
      split; [congruence|]. split; [congruence|]. simpl. split.
      + intros [I|[I|I]]; [discriminate|discriminate|].
        apply in_app_or in I. destruct I as [I|I]; [exact I|].
        apply in_app_or in I. exfalso.
        destruct I as [I|[I|[]]]; [|discriminate].
        destruct Ha as [->|(archived & ->)]; destruct I as [I|[]];
          discriminate.
      + intros I. right. right. apply in_or_app. now left. }
  destruct F as (P & M & I). unfold existing_log at 1. rewrite P, M, I.
  unfold update_profit_graph in G. simpl in G.
  destruct (savefig_ok e); inversion G; subst st2 g; simpl.
  - split; [reflexivity|]. intros N. exfalso. apply N. now left.
  - split; [|reflexivity]. intros [A|[]]. discriminate.
Qed.

End ProcessMore.

(** ** Start-up *)

Module StartupFacts.

Import Startup MoreTerms.

Lemma get_app d1 d2 k :
  get (d1 ++ d2) k
  = match get d1 k with
    | Some v => Some v
    | None => get d2 k
    end.
Proof.
  induction d1 as [|[k' v'] d1 IH]; simpl; [reflexivity|].
  destruct (String.eqb k' k); [reflexivity|exact IH].
Qed.

Lemma has_key_app d1 d2 k :
  has_key (d1 ++ d2) k = has_key d1 k || has_key d2 k.
Proof.
  unfold has_key. rewrite get_app. destruct (get d1 k); reflexivity.
Qed.

Lemma setitem_absent d k v :
  has_key d k = false -> setitem d k v = d ++ [(k, v)].
Proof.
  unfold has_key. induction d as [|[k' v'] d IH]; simpl; [reflexivity|].
  destruct (String.eqb k' k); [discriminate|].
  intros H. now rewrite IH.
Qed.

Lemma has_key_In d k : has_key d k = true <-> In k (map fst d).
Proof.
  unfold has_key. induction d as [|[k' v'] d IH]; simpl.
  - split; [discriminate|tauto].
  - destruct (String.eqb k' k) eqn:E.
    + apply String.eqb_eq in E. tauto.
    + apply String.eqb_neq in E. rewrite IH. tauto.
Qed.

(** The merge keeps the configuration that was loaded and puts the
    missing defaults after it. *)
Lemma merge_defaults_app default_config :
  NoDup (map fst default_config) ->
  forall config,
    merge_defaults config default_config
    = config ++ filter (missing_from config) default_config.
Proof.
  unfold merge_defaults.
  induction default_config as [|[k v] d IH]; intros N config; simpl.
  - now rewrite app_nil_r.
  - inversion N as [|? ? Nk Nd]; subst.
    unfold missing_from at 1. simpl.
    destruct (has_key config k) eqn:H; simpl.
    + now apply IH.
    + rewrite (setitem_absent _ _ _ H), (IH Nd), <- app_assoc. simpl.
      f_equal. f_equal. apply filter_ext_in.
      intros [k' v'] Hk. unfold missing_from. simpl.
      rewrite has_key_app. unfold has_key at 2. simpl.
      destruct (String.eqb k k') eqn:E; [|now rewrite orb_false_r].
      apply String.eqb_eq in E. subst k'.
      exfalso. apply Nk. apply in_map_iff. exists (k, v'). auto.
Qed.

Lemma get_filter_missing config d k :
  get config k = None -> get (filter (missing_from config) d) k = get d k.
Proof.
  intros H. induction d as [|[k' v'] d IH]; simpl; [reflexivity|].
  unfold missing_from at 1. simpl.
  destruct (String.eqb k' k) eqn:E.
  - apply String.eqb_eq in E. subst k'. unfold has_key. rewrite H. simpl.
    now rewrite String.eqb_refl.
  - destruct (has_key config k'); simpl; [exact IH|]. now rewrite E.
Qed.

Lemma get_merge_defaults default_config :
  NoDup (map fst default_config) ->
  forall config k,
    get (merge_defaults config default_config) k
    = match get config k with
      | Some v => Some v
      | None => get default_config k
      end.
Proof.
  intros N config k. rewrite (merge_defaults_app _ N), get_app.
  destruct (get config k) eqn:G; [reflexivity|].
  now apply get_filter_missing.
Qed.


Lemma NoDup_monitor_defaults : NoDup (map fst monitor_defaults).
Proof.
  simpl.
  repeat (constructor; [simpl; intuition discriminate|]). constructor.
Qed.


(** X7.  The monitor merges in the same way, one level deep.  From a
    file that holds an object, the configuration is that object,
    unchanged and in its order, followed by the defaults of the
    top-level keys it lacks.  A [data_paths] object in the file is
    therefore used as it is: the paths it lacks are not taken from the
    defaults. *)
Theorem monitor_load_config_is_shallow :
  forall (creatable : bool) (file : config_file),
    (forall config,
        file = Parsed config ->
        fst (monitor_load_config creatable file)
        = Some (config ++ filter (missing_from config) monitor_defaults)) /\
    (forall config paths,
        file = Parsed config ->
        get config "data_paths" = Some paths ->
        exists cfg,
          fst (monitor_load_config creatable file) = Some cfg /\
          get cfg "data_paths" = Some paths).
Proof.
  intros creatable file. split.
  - intros config ->. cbn [monitor_load_config fst]. f_equal.
    apply merge_defaults_app, NoDup_monitor_defaults.
  - intros config paths -> G. cbn [monitor_load_config fst].
    eexists. split; [reflexivity|].
    rewrite (get_merge_defaults _ NoDup_monitor_defaults), G. reflexivity.
Qed.

End StartupFacts.

(** ** The simulator: grouping by race *)

Module SimulatorMore.

Import Pandas BetSimulator SimulatorFacts MoreTerms.

Lemma NoDup_unique l : NoDup (unique l).
Proof.
  induction l as [|x l IH]; simpl; constructor.
  - intros H. apply filter_In in H. destruct H as [_ H].
    rewrite String.eqb_refl in H. discriminate.
  - now apply NoDup_filter.
Qed.

Section Grouping.

Variable A : Type.
Variable k : A -> string.

Lemma group_cons_other a l key :
  k a <> key -> group k (a :: l) key = group k l key.
Proof.
  intros H. unfold group. simpl.
  apply String.eqb_neq in H. now rewrite H.
Qed.

Lemma groups_cons_other a l ks :
  ~ In (k a) ks -> flat_map (group k (a :: l)) ks = flat_map (group k l) ks.
Proof.
  induction ks as [|key ks IH]; intros H; cbn [flat_map]; [reflexivity|].
  rewrite group_cons_other, IH; auto.
  - intros K. apply H. now right.
  - intros K. apply H. now left.
Qed.

(** Grouping by a key, over distinct keys that cover the list, neither
    drops nor repeats an element. *)
Lemma groups_Permutation l :
  forall ks,
    NoDup ks -> (forall x, In x l -> In (k x) ks) ->
    Permutation (flat_map (group k l) ks) l.
Proof.
  induction l as [|a l IH]; intros ks N C.
  - clear N C. induction ks as [|key ks IHk]; simpl; auto.
  - destruct (in_split (k a) ks (C a (or_introl eq_refl)))
      as (k1 & k2 & ->).
    apply NoDup_remove_2 in N as N2.
    rewrite flat_map_app. simpl.
    rewrite !groups_cons_other.
    + unfold group at 2. simpl. rewrite String.eqb_refl.
      apply Permutation_sym.
      apply Permutation_cons_app.
      apply Permutation_sym.
      specialize (IH (k1 ++ k a :: k2) N (fun x Hx => C x (or_intror Hx))).
      rewrite flat_map_app in IH. exact IH.
    + intros H. apply N2. apply in_or_app. now right.
    + intros H. apply N2. apply in_or_app. now left.
Qed.

Lemma group_app l1 l2 key :
  group k (l1 ++ l2) key = group k l1 key ++ group k l2 key.
Proof. unfold group. apply filter_app. Qed.

Lemma group_group_same l key : group k (group k l key) key = group k l key.
Proof.
  unfold group. induction l as [|x l IH]; simpl; [reflexivity|].
  destruct (String.eqb (k x) key) eqn:E; simpl; [rewrite E|]; now rewrite IH.
Qed.

Lemma group_group_other l key' key :
  key' <> key -> group k (group k l key') key = [].
Proof.
  intros Hc. unfold group. induction l as [|x l IH]; simpl; [reflexivity|].
  destruct (String.eqb (k x) key') eqn:E; simpl; [|exact IH].
  apply String.eqb_eq in E.
  assert (E2 : String.eqb (k x) key = false)
    by (apply String.eqb_neq; congruence).
  now rewrite E2.
Qed.

Lemma group_groups_absent l ks key :
  ~ In key ks -> group k (flat_map (group k l) ks) key = [].
Proof.
  induction ks as [|key' ks IH]; intros H; cbn [flat_map]; [reflexivity|].
  rewrite group_app, group_group_other, IH; [reflexivity| |].
  - intros K. apply H. now right.
  - intros ->. apply H. now left.
Qed.

(** The group of a key, picked out of all the groups. *)
Lemma group_of_groups l ks key :
  NoDup ks -> In key ks ->
  group k (flat_map (group k l) ks) key = group k l key.
Proof.
  induction ks as [|key' ks IH]; intros N H; [destruct H|].
  cbn [flat_map]. rewrite group_app.
  inversion N as [|? ? Nk Nks]; subst.
  destruct H as [->|H].
  - rewrite group_group_same, group_groups_absent by exact Nk.
    apply app_nil_r.
  - rewrite group_group_other, (IH Nks H); [reflexivity|].
    intros ->. contradiction.
Qed.

End Grouping.

Lemma race_entries_map s top_n_success race_name :
  race_entries s top_n_success race_name
  = map (settled_row s top_n_success)
        (group race_of (merge (betting_df s) (results_df s)) race_name).
Proof.
  unfold race_entries, race_data, group. apply map_ext_in.
  intros row H. apply filter_In in H. destruct H as [_ E].
  apply String.eqb_eq in E. unfold settled_row. now rewrite E.
Qed.

Lemma simulation_log_map s top_n_success :
  simulation_log s top_n_success
  = map (settled_row s top_n_success)
        (flat_map (group race_of (merge (betting_df s) (results_df s)))
                  (races s)).
Proof.
  unfold simulation_log.
  induction (races s) as [|race rest IH]; simpl; [reflexivity|].
  now rewrite map_app, IH, race_entries_map.
Qed.

Lemma Race_Name_settled_row s top_n_success row :
  Race_Name (settled_row s top_n_success row) = race_of row.
Proof. unfold settled_row, settle. destruct row. reflexivity. Qed.

Lemma filter_settled_rows s top_n_success race_name l :
  filter (fun r => String.eqb (Race_Name r) race_name)
         (map (settled_row s top_n_success) l)
  = map (settled_row s top_n_success) (group race_of l race_name).
Proof.
  unfold group. induction l as [|x l IH]; simpl; [reflexivity|].
  rewrite Race_Name_settled_row.
  destruct (String.eqb (race_of x) race_name); simpl; now rewrite IH.
Qed.

(** The log restricted to a race is what the loop logged for it. *)
Lemma race_entries_of_log s top_n_success race_name :
  In race_name (races s) ->
  filter (fun r => String.eqb (Race_Name r) race_name)
         (simulation_log s top_n_success)
  = race_entries s top_n_success race_name.
Proof.
  intros H.
  rewrite simulation_log_map, filter_settled_rows, race_entries_map.
  now rewrite (group_of_groups _ race_of _ (races s) race_name
                 (NoDup_unique _) H).
Qed.

(** X8.  [simulate_bets] settles every joined row exactly once: its log
    is a rearrangement (by race, in order of first appearance) of the
    joined rows, each settled under its own race name, so there are as
    many bets as joined rows. *)
Theorem simulation_log_settles_each_row_once :
  forall (s : simulator) (top_n_success : Q),
    Permutation
      (simulation_log s top_n_success)
      (map (settled_row s top_n_success)
           (merge (betting_df s) (results_df s))) /\
    List.length (simulation_log s top_n_success)
    = List.length (merge (betting_df s) (results_df s)).
Proof.
  intros s top_n_success.
  assert (P : Permutation
                (simulation_log s top_n_success)
                (map (settled_row s top_n_success)
                     (merge (betting_df s) (results_df s)))).
  { rewrite simulation_log_map. apply Permutation_map.
    apply groups_Permutation; [apply NoDup_unique|].
    intros x Hx. unfold races. apply In_unique. now apply in_map. }
  split; [exact P|].
  rewrite (Permutation_length P). apply length_map.
Qed.

Lemma Qsum_flat_map {B} (f : log_row -> Q) (h : B -> list log_row) ks :
  (Qsum (map f (flat_map h ks)) == Qsum (map (fun key => Qsum (map f (h key))) ks))%Q.
Proof.
  induction ks as [|key ks IH]; simpl; [reflexivity|].
  rewrite map_app, GraphFacts.Qsum_app, IH. reflexivity.
Qed.

Lemma simulate_bets_sum s top_n_success :
  (simulate_bets s top_n_success
   == Qsum (map Profit_Loss (simulation_log s top_n_success)))%Q.
Proof.
  unfold simulate_bets, simulation_log. symmetry. apply Qsum_flat_map.
Qed.

Lemma losses_bound (bet : Q) (log : list log_row) :
  (forall e, In e log ->
             (Report.is_win e = true /\ 0 <= Profit_Loss e)%Q \/
             (Report.is_win e = false /\ Profit_Loss e = - bet)%Q) ->
  (- (bet * inject_Z (Z.of_nat (losses log))) <= Qsum (map Profit_Loss log))%Q.
Proof.
  unfold losses. induction log as [|e log IH]; intros H.
  - simpl. unfold inject_Z. lra.
  - assert (IH' := IH (fun x Hx => H x (or_intror Hx))). clear IH.
    cbn [filter map Qsum].
    destruct (H e (or_introl eq_refl)) as [[W P]|[W P]]; rewrite W; cbn [negb].
    + lra.
    + cbn [List.length]. rewrite Nat2Z.inj_succ, <- Z.add_1_r, inject_Z_plus.
      rewrite P. change (inject_Z 1) with 1%Q. lra.
Qed.

(** X9.  The profit that [simulate_bets] returns is the sum of the
    profits of the bets in its log.  With a stake that is not negative
    and odds of at least 1, a won bet never costs money, and the loss of
    the whole simulation is at most the stake times the number of lost
    bets. *)
Theorem simulate_bets_profit_bound :
  forall (s : simulator) (top_n_success : Q),
    (0 <= bet_amount s)%Q ->
    (forall b, In b (betting_df s) -> (1 <= b_Quote b)%Q) ->
    (simulate_bets s top_n_success
     == Qsum (map Profit_Loss (simulation_log s top_n_success)))%Q /\
    (forall e, In e (simulation_log s top_n_success) ->
               Outcome e = WIN -> (0 <= Profit_Loss e)%Q) /\
    (- (bet_amount s
        * inject_Z (Z.of_nat (losses (simulation_log s top_n_success))))
     <= simulate_bets s top_n_success)%Q.
Proof.
  intros s top_n_success Hbet Hq.
  assert (E : forall e, In e (simulation_log s top_n_success) ->
                        (Report.is_win e = true /\ 0 <= Profit_Loss e)%Q \/
                        (Report.is_win e = false
                         /\ Profit_Loss e = - bet_amount s)%Q).
  { intros e He. apply In_simulation_log in He.
    destruct He as (b & r & Hb & _ & _ & ->).
    unfold Report.is_win, settle. cbn [Outcome Profit_Loss].
    destruct (le_nan (r_Actual_Position r) top_n_success).
    - left. split; [reflexivity|].
      specialize (Hq b Hb).
      assert (0 <= (b_Quote b - 1) * bet_amount s)%Q
        by (apply Qmult_le_0_compat; lra).
      lra.
    - right. split; reflexivity. }
  split; [apply simulate_bets_sum|]. split.
  - intros e He W. destruct (E e He) as [[_ P]|[L _]]; [exact P|].
    unfold Report.is_win in L. rewrite W in L. discriminate.
  - rewrite simulate_bets_sum. now apply losses_bound.
Qed.

End SimulatorMore.

(** ** [race_profits] *)

Module ReportFacts.

Import Pandas BetSimulator MoreTerms SimulatorFacts SimulatorMore Report.

Lemma fold_left_Qplus l :
  forall a, (fold_left Qplus l a == a + Qsum l)%Q.
Proof.
  induction l as [|x l IH]; intros a; simpl; [lra|]. rewrite IH. lra.
Qed.

Lemma sum_profit_Qsum entries :
  (sum_profit entries == Qsum (map Profit_Loss entries))%Q.
Proof. unfold sum_profit. rewrite fold_left_Qplus. lra. Qed.

Lemma group_sum_race_entries s top_n_success race_name :
  In race_name (races s) ->
  group_sum (simulation_log s top_n_success) race_name
  = Qsum (map Profit_Loss (race_entries s top_n_success race_name)).
Proof.
  intros H. unfold group_sum. now rewrite race_entries_of_log.
Qed.

Lemma race_profits_from_keys s top_n_success races0 :
  forall cumulative,
    map fst (race_profits_from s top_n_success cumulative races0) = races0.
Proof.
  induction races0 as [|race rest IH]; intros cumulative; simpl;
    [reflexivity|]. now rewrite IH.
Qed.

Lemma race_profits_from_spec s top_n_success races0 :
  forall cumulative k race_name summary,
    nth_error (race_profits_from s top_n_success cumulative races0) k
    = Some (race_name, summary) ->
    nth_error races0 k = Some race_name /\
    race_profit summary = sum_profit (race_entries s top_n_success race_name) /\
    (cumulative_profit summary
     == cumulative
        + Qsum (map (fun r => sum_profit (race_entries s top_n_success r))
                    (firstn (S k) races0)))%Q /\
    total_capital summary = (starting_capital s + cumulative_profit summary)%Q /\
    bets_placed summary
    = List.length (race_entries s top_n_success race_name) /\
    bets_won summary
    = List.length (filter is_win (race_entries s top_n_success race_name)).
Proof.
  induction races0 as [|race rest IH]; intros cumulative k race_name summary H.
  - destruct k; discriminate.
  - destruct k as [|k]; simpl in H.
    + inversion H; subst. simpl. repeat split. lra.
    + apply IH in H. destruct H as (N & R & C & T & B & W).
      repeat split; auto.
      rewrite C. change (firstn (S (S k)) (race :: rest))
        with (race :: firstn (S k) rest).
      simpl. lra.
Qed.

Lemma Qsum_map_ext {B} (f g : B -> Q) l :
  (forall x, In x l -> (f x == g x)%Q) ->
  (Qsum (map f l) == Qsum (map g l))%Q.
Proof.
  induction l as [|x l IH]; intros H; simpl; [reflexivity|].
  rewrite (H x (or_introl eq_refl)), IH; [reflexivity|].
  intros y Hy. apply H. now right.
Qed.

Lemma In_firstn {B} (x : B) n l : In x (firstn n l) -> In x l.
Proof.
  revert l. induction n as [|n IH]; intros [|y l] H; simpl in *; try tauto.
  destruct H as [H|H]; auto.
Qed.

(** X10.  [race_profits] lists the races in the order in which they
    first occur among the joined rows, each once.  The profit of a race
    is the sum of the profits that the log holds for it, the cumulative
    profit is the sum of the race profits up to it, and the total
    capital is the starting capital plus the cumulative profit; for the
    last race the cumulative profit is the value that [simulate_bets]
    returns. *)
Theorem race_profits_running_totals :
  forall (s : simulator) (top_n_success : Q),
    plotted_races s top_n_success = races s /\
    NoDup (plotted_races s top_n_success) /\
    (forall k race_name summary,
        nth_error (race_profits s top_n_success) k
        = Some (race_name, summary) ->
        (race_profit summary
         == group_sum (simulation_log s top_n_success) race_name)%Q /\
        (cumulative_profit summary
         == Qsum (map (group_sum (simulation_log s top_n_success))
                      (firstn (S k) (races s))))%Q /\
        total_capital summary
        = (starting_capital s + cumulative_profit summary)%Q /\
        (S k = List.length (races s) ->
         (cumulative_profit summary == simulate_bets s top_n_success)%Q)).
Proof.
  intros s top_n_success.
  assert (K : plotted_races s top_n_success = races s)
    by apply race_profits_from_keys.
  split; [exact K|]. split; [rewrite K; apply NoDup_unique|].
  intros k race_name summary H.
  apply race_profits_from_spec in H.
  destruct H as (N & R & C & T & _ & _).
  assert (Hin : In race_name (races s)) by (eapply nth_error_In; eauto).
  assert (Cs : (cumulative_profit summary
                == Qsum (map (group_sum (simulation_log s top_n_success))
                             (firstn (S k) (races s))))%Q).
  { rewrite C. rewrite Qplus_0_l. apply Qsum_map_ext.
    intros r Hr. apply In_firstn in Hr.
    rewrite sum_profit_Qsum, group_sum_race_entries by exact Hr. reflexivity. }
  split.
  - rewrite R, sum_profit_Qsum, group_sum_race_entries by exact Hin. reflexivity.
  - split; [exact Cs|]. split; [exact T|].
    intros L. rewrite Cs, L, firstn_all. unfold simulate_bets.
    apply Qsum_map_ext. intros r Hr.
    now rewrite group_sum_race_entries.
Qed.

Lemma length_filter_le {B} (p : B -> bool) l :
  (List.length (filter p l) <= List.length l)%nat.
Proof.
  induction l as [|x l IH]; simpl; [lia|]. destruct (p x); simpl; lia.
Qed.

Lemma race_entries_nonempty s top_n_success race_name :
  In race_name (races s) ->
  (1 <= List.length (race_entries s top_n_success race_name))%nat.
Proof.
  unfold races. intros H. apply In_unique, in_map_iff in H.
  destruct H as (row & E & Hrow).
  unfold race_entries. rewrite length_map.
  assert (Hin : In row (race_data (merge (betting_df s) (results_df s))
                                  race_name)).
  { unfold race_data. apply filter_In. split; [exact Hrow|].
    now apply String.eqb_eq. }
  destruct (race_data (merge (betting_df s) (results_df s)) race_name);
    [destruct Hin|simpl; lia].
Qed.

Lemma race_profits_from_bets s top_n_success races0 :
  forall cumulative,
    list_sum (map (fun kv => bets_placed (snd kv))
                  (race_profits_from s top_n_success cumulative races0))
    = List.length (flat_map (race_entries s top_n_success) races0).
Proof.
  induction races0 as [|race rest IH]; intros cumulative; simpl;
    [reflexivity|]. now rewrite IH, length_app.
Qed.

(** X11.  Every race of [race_profits] has at least one bet, no more
    bets won than placed, and a win rate between 0 and 1 that is the
    share of the bets won; the bets placed over all races are the bets
    of the log. *)
Theorem race_profits_counts :
  forall (s : simulator) (top_n_success : Q),
    (forall race_name summary,
        In (race_name, summary) (race_profits s top_n_success) ->
        (1 <= bets_placed summary)%nat /\
        (bets_won summary <= bets_placed summary)%nat /\
        (0 <= win_rate summary <= 1)%Q /\
        (win_rate summary * inject_Z (Z.of_nat (bets_placed summary))
         == inject_Z (Z.of_nat (bets_won summary)))%Q) /\
    list_sum (map (fun kv => bets_placed (snd kv))
                  (race_profits s top_n_success))
    = List.length (simulation_log s top_n_success).
Proof.
  intros s top_n_success. split; [|apply race_profits_from_bets].
  intros race_name summary H.
  apply In_nth_error in H. destruct H as (k & H).
  assert (E : exists cumulative,
             summary = summarise (starting_capital s) cumulative
                                 (race_entries s top_n_success race_name)
             /\ In race_name (races s)).
  { unfold race_profits in H. revert k H. generalize 0%Q.
    induction (races s) as [|race rest IH]; intros c k H.
    - destruct k; discriminate.
    - destruct k as [|k]; simpl in H.
      + inversion H; subst. exists c. split; [reflexivity|now left].
      + destruct (IH _ _ H) as (c' & E & I). exists c'. split; auto.
        now right. }
  destruct E as (cumulative & -> & Hin). simpl.
  pose proof (race_entries_nonempty s top_n_success race_name Hin) as B.
  pose proof (length_filter_le is_win
                (race_entries s top_n_success race_name)) as W.
  set (bets := List.length (race_entries s top_n_success race_name)) in *.
  set (wins := List.length
                 (filter is_win (race_entries s top_n_success race_name))) in *.
  assert (Lt : (0 <? bets)%nat = true) by (apply Nat.ltb_lt; lia).
  rewrite Lt.
  assert (Bq : (0 < inject_Z (Z.of_nat bets))%Q).
  { rewrite <- (Zlt_Qlt 0). lia. }
  assert (Wq : (0 <= inject_Z (Z.of_nat wins))%Q).
  { rewrite <- (Zle_Qle 0). lia. }
  assert (WB : (inject_Z (Z.of_nat wins) <= inject_Z (Z.of_nat bets))%Q).
  { rewrite <- Zle_Qle. lia. }
  split; [exact B|]. split; [exact W|]. split.
  - split.
    + apply Qle_shift_div_l; [exact Bq|]. lra.
    + apply Qle_shift_div_r; [exact Bq|]. lra.
  - field. lra.
Qed.

End ReportFacts.

(** ** The capital series, for every log *)

Module GraphMore.

Import Pandas Terms MoreTerms Evaluator GraphFacts.

Lemma ascii_compare_refl a : Ascii.compare a a = Eq.
Proof. unfold Ascii.compare. apply N.compare_refl. Qed.

Lemma ascii_compare_lt_trans a b c :
  Ascii.compare a b = Lt -> Ascii.compare b c = Lt -> Ascii.compare a c = Lt.
Proof.
  unfold Ascii.compare. rewrite !N.compare_lt_iff. apply N.lt_trans.
Qed.

Lemma compare_refl s : String.compare s s = Eq.
Proof.
  induction s as [|a s IH]; simpl; [reflexivity|].
  now rewrite ascii_compare_refl.
Qed.

Lemma lt_str_trans a : forall b c, lt_str a b -> lt_str b c -> lt_str a c.
Proof.
  unfold lt_str.
  induction a as [|x a IH]; intros [|y b] [|z c]; simpl; try congruence.
  destruct (Ascii.compare x y) eqn:XY; try discriminate;
    destruct (Ascii.compare y z) eqn:YZ; try discriminate; intros H1 H2.
  - apply Ascii.compare_eq_iff in XY, YZ. subst.
    rewrite ascii_compare_refl. eapply IH; eauto.
  - apply Ascii.compare_eq_iff in XY. subst. now rewrite YZ.
  - apply Ascii.compare_eq_iff in YZ. subst. now rewrite XY.
  - now rewrite (ascii_compare_lt_trans _ _ _ XY YZ).
Qed.

Lemma lt_str_irrefl a : ~ lt_str a a.
Proof. unfold lt_str. rewrite compare_refl. discriminate. Qed.

Lemma leb_neq_lt k h :
  String.leb k h = true -> String.eqb k h = false -> lt_str k h.
Proof.
  unfold String.leb, lt_str. intros L E. apply String.eqb_neq in E.
  destruct (String.compare k h) eqn:C; [|reflexivity|discriminate].
  apply String.compare_eq_iff in C. contradiction.
Qed.

Lemma leb_false_lt k h : String.leb k h = false -> lt_str h k.
Proof.
  unfold String.leb, lt_str. rewrite (String.compare_antisym h k).
  destruct (String.compare k h); simpl; congruence.
Qed.

Lemma StronglySorted_insert_key k ks :
  StronglySorted lt_str ks -> StronglySorted lt_str (insert_key k ks).
Proof.
  induction ks as [|h t IH]; simpl; intros S.
  - repeat constructor.
  - destruct (String.eqb k h) eqn:E; [assumption|].
    inversion S as [|? ? St Hd]; subst.
    destruct (String.leb k h) eqn:L.
    + pose proof (leb_neq_lt _ _ L E) as Lt.
      constructor; [assumption|]. constructor; [exact Lt|].
      apply Forall_forall. intros x Hx.
      apply (lt_str_trans k h x Lt).
      rewrite Forall_forall in Hd. now apply Hd.
    + constructor; [now apply IH|].
      apply Forall_forall. intros x Hx. apply In_insert_key in Hx.
      destruct Hx as [->|Hx]; [now apply leb_false_lt|].
      rewrite Forall_forall in Hd. now apply Hd.
Qed.

Lemma StronglySorted_group_keys df : StronglySorted lt_str (group_keys df).
Proof.
  unfold group_keys. induction (map Race_Name df) as [|h t IH]; simpl.
  - constructor.
  - now apply StronglySorted_insert_key.
Qed.

Lemma StronglySorted_NoDup l : StronglySorted lt_str l -> NoDup l.
Proof.
  induction 1 as [|a l S IH F]; constructor; [|assumption].
  intros H. rewrite Forall_forall in F. apply (lt_str_irrefl a). now apply F.
Qed.

Lemma cumsum_from_keys s : forall acc, map fst (cumsum_from acc s) = map fst s.
Proof.
  induction s as [|[k v] t IH]; intros acc; simpl; [reflexivity|].
  now rewrite IH.
Qed.

Lemma total_capitals_keys cfg df :
  map fst (total_capitals cfg df) = group_keys df.
Proof.
  unfold total_capitals, groupby_sum. rewrite map_map. simpl.
  change (map (fun x => fst x)) with (@map (string * Q) string fst).
  destruct (group_keys df) as [|k t]; simpl; [reflexivity|].
  rewrite cumsum_from_keys, map_map. simpl. now rewrite map_id.
Qed.

(** X13.  For every master log, the series that [update_profit_graph]
    draws has one point for each race of the log, the races in strictly
    ascending order of their names.  The value at a race is the
    starting capital plus the summed profit of the races up to it in
    that order, that is the previous value plus the summed profit of
    the race. *)
Theorem total_capitals_series :
  forall (cfg : config) (df : list log_row),
    map fst (total_capitals cfg df) = group_keys df /\
    StronglySorted lt_str (group_keys df) /\
    NoDup (group_keys df) /\
    (forall race_name,
        In race_name (group_keys df) <->
        exists r, In r df /\ Race_Name r = race_name) /\
    (forall k race_name c,
        nth_error (total_capitals cfg df) k = Some (race_name, c) ->
        (c == starting_capital cfg
              + Qsum (map (group_sum df) (firstn (S k) (group_keys df))))%Q) /\
    (forall k race_name c race_name' c',
        nth_error (total_capitals cfg df) k = Some (race_name, c) ->
        nth_error (total_capitals cfg df) (S k) = Some (race_name', c') ->
        (c' == c + group_sum df race_name')%Q).
Proof.
  intros cfg df.
  split; [apply total_capitals_keys|].
  split; [apply StronglySorted_group_keys|].
  split; [apply StronglySorted_NoDup, StronglySorted_group_keys|].
  split; [|split].
  - intros race_name. rewrite In_group_keys, in_map_iff.
    split; intros (r & H1 & H2); exists r; auto.
  - intros k race_name c H. now apply total_capitals_nth in H.
  - intros k race_name c race_name' c' H H'.
    eapply total_capitals_step; eauto.
Qed.

End GraphMore.

(** ** The clock policy, for every reading of the clock *)

Module PolicyFacts.

Import Monitor Schedule MonitorFacts Policy.

Local Open Scope Z_scope.

(** The window of one hour around an offset, in microseconds. *)
Lemma due_iff (d h : Z) :
  (Qabs (inject_Z d / 1000000 / 3600 - inject_Z h) <= 1)%Q <->
  (h - 1) * 3600000000 <= d <= (h + 1) * 3600000000.
Proof.
  rewrite Qabs_Qle_condition.
  unfold Qle, Qminus, Qplus, Qdiv, Qmult, Qinv, Qopp, inject_Z. simpl.
  lia.
Qed.

Lemma hours_nonneg_iff (d : Z) :
  (0 <= inject_Z d / 1000000 / 3600)%Q <-> 0 <= d.
Proof.
  unfold Qle, Qdiv, Qmult, Qinv, inject_Z. simpl. lia.
Qed.

Lemma hours_le_iff (d p : Z) :
  (inject_Z d / 1000000 / 3600 <= inject_Z p)%Q <-> d <= p * 3600000000.
Proof.
  unfold Qle, Qdiv, Qmult, Qinv, inject_Z. simpl. lia.
Qed.

Lemma should_process_results_iff cfg race_time now :
  should_process_results cfg race_time now = true <->
  race_time <= now /\
  (hours_after_race race_time now
   <= auto_process_results_hours_after_race cfg)%Q.
Proof.
  unfold should_process_results.
  rewrite andb_true_iff, !Qle_bool_iff.
  unfold hours_after_race. rewrite hours_nonneg_iff. split; intros [H1 H2];
    (split; [lia|exact H2]).
Qed.

(** The race that [get_next_race] returns starts after [now]. *)
Lemma get_next_race_after races now r t :
  get_next_race races now = Some (r, t) -> now < t.
Proof.
  unfold get_next_race.
  destruct (upcoming_races now races) as [u|] eqn:U; [|discriminate].
  pose proof (hd_sort_by_time u) as Hd.
  destruct (sort_by_time u) as [|first rest]; [discriminate|].
  intros H. inversion H; subst first. simpl in Hd. symmetry in Hd.
  apply earliest_Some in Hd. destruct Hd as (u1 & u2 & -> & _).
  assert (I : In (r, t) (u1 ++ (r, t) :: u2))
    by (apply in_or_app; right; now left).
  apply (In_upcoming_races now races _ r t U) in I.
  destruct I as [_ [_ L]]. exact L.
Qed.

(** X14.  Results are due exactly from the start of the race until the
    configured number of hours after it.  The race that [get_next_race]
    selects has not started at the reading of the clock that selected
    it, so at that reading its results are never due: they are due only
    at a later reading, at or after the start of the race. *)
Theorem results_due_only_after_start :
  forall (cfg : config) (races : list race) (now now' : Z)
         (r : race) (t : Z),
    get_next_race races now = Some (r, t) ->
    now < t /\
    should_process_results cfg t now = false /\
    (should_process_results cfg t now' = true <->
     t <= now' /\
     (hours_after_race t now'
      <= auto_process_results_hours_after_race cfg)%Q) /\
    (should_process_results cfg t now' = true -> now < now').
Proof.
  intros cfg races now now' r t H.
  apply get_next_race_after in H.
  split; [exact H|]. split; [|split].
  - destruct (should_process_results cfg t now) eqn:S; [|reflexivity].
    apply should_process_results_iff in S. lia.
  - apply should_process_results_iff.
  - intros S. apply should_process_results_iff in S. lia.
Qed.

(** X15.  When the offset for the predictions is one of the offsets for
    the odds, as in the default configuration, the odds are due
    whenever the predictions are. *)
Theorem predictions_due_implies_odds_due :
  forall (cfg : config) (race_time now : Z),
    In (prediction_hours_before_race cfg) (odds_fetch_hours_before_race cfg) ->
    should_generate_predictions cfg race_time now = true ->
    should_fetch_odds cfg race_time now = true.
Proof.
  intros cfg race_time now I H.
  apply should_generate_predictions_iff in H.
  apply should_fetch_odds_iff.
  exists (prediction_hours_before_race cfg). auto.
Qed.

End PolicyFacts.

(** ** [calculate_timing_windows] against the policy of the monitor *)

Module TimingDemoFacts.

Import Monitor Policy PolicyFacts TimingDemo.

Local Open Scope Z_scope.

Lemma window_before_active race_date now h :
  is_active (window_before race_date now h)
  = Qle_bool (Qabs (Monitor.hours_until_race race_date now - inject_Z h)) 1.
Proof.
  apply eq_true_iff_eq. unfold window_before, timedelta_hours. cbn [is_active].
  rewrite andb_true_iff, !Z.leb_le, Qle_bool_iff.
  unfold Monitor.hours_until_race. rewrite due_iff. lia.
Qed.

(** X17.  The windows that [calculate_timing_windows] reports as active
    are those in which the monitor acts under its default
    configuration: the prediction window is active exactly when
    [should_generate_predictions] holds, one of the odds windows is
    active exactly when [should_fetch_odds] holds, and the result window
    is active exactly when [should_process_results] holds. *)
Theorem timing_windows_agree_with_monitor :
  forall (race_date now : Z),
    let info := calculate_timing_windows race_date now in
    is_active (prediction_window info)
    = should_generate_predictions Monitor.default_config race_date now /\
    existsb is_active (odds_fetch_windows info)
    = should_fetch_odds Monitor.default_config race_date now /\
    result_is_active (result_processing_window info)
    = should_process_results Monitor.default_config race_date now /\
    TimingDemo.hours_until_race info
    = Monitor.hours_until_race race_date now.
Proof.
  intros race_date now. cbn zeta.
  split; [|split; [|split; [|reflexivity]]].
  - unfold calculate_timing_windows. cbn [prediction_window].
    rewrite window_before_active. reflexivity.
  - unfold calculate_timing_windows. cbn [odds_fetch_windows].
    unfold should_fetch_odds, odds_fetch_hours.
    cbn [map existsb Monitor.default_config odds_fetch_hours_before_race].
    rewrite !window_before_active. reflexivity.
  - apply eq_true_iff_eq.
    unfold calculate_timing_windows, timedelta_hours, result_process_hours.
    cbn [result_processing_window result_is_active].
    rewrite should_process_results_iff, andb_true_iff, !Z.leb_le.
    unfold Policy.hours_after_race.
    change (auto_process_results_hours_after_race Monitor.default_config)
      with (inject_Z 4).
    rewrite hours_le_iff. lia.
Qed.

End TimingDemoFacts.

(** ** [get_next_race] of the schedule updater *)

Module ScheduleUpdaterFacts.

Import Monitor Schedule MoreTerms MonitorFacts ScheduleUpdater.

Local Open Scope Z_scope.

Lemma reads_after_cons_skip now a r t :
  (forall d ta, race_date a = Some d -> clock_reading d = Some ta ->
                ~ now < ta) ->
  reads_after now r t -> r <> a.
Proof.
  intros Ha [(d & Dr & Cr) Lt] ->. exact (Ha d t Dr Cr Lt).
Qed.

Lemma In_upcoming now races r t :
  In (r, t) (ScheduleUpdater.upcoming_races now races) <->
  In r races /\ reads_after now r t.
Proof.
  induction races as [|a races IH]; [simpl; tauto|].
  assert (Skip : (forall d ta, race_date a = Some d ->
                               clock_reading d = Some ta -> ~ now < ta) ->
                 (In (r, t) (ScheduleUpdater.upcoming_races now races) <->
                  In r (a :: races) /\ reads_after now r t)).
  { intros Ha. rewrite IH. split; [intros [H1 H2]; split; [now right|exact H2]|].
    intros [[<-|H1] H2]; [|now split].
    exfalso. exact (reads_after_cons_skip now a a t Ha H2 eq_refl). }
  cbn [ScheduleUpdater.upcoming_races].
  destruct (race_date a) as [d|] eqn:D;
    [|apply Skip; intros d ta Dr; discriminate].
  destruct (clock_reading d) as [ta|] eqn:C;
    [|apply Skip; intros d' ta Dr Cr; inversion Dr; subst; congruence].
  destruct (Z.ltb now ta) eqn:L.
  - apply Z.ltb_lt in L. cbn [In]. rewrite IH. split.
    + intros [E|[H1 H2]].
      * inversion E; subst. split; [now left|].
        split; [exists d; auto|exact L].
      * split; [now right|exact H2].
    + intros [[<-|H1] H2]; [left|right; now split].
      destruct H2 as [(d' & Dr & Cr) _].
      rewrite D in Dr. inversion Dr; subst. congruence.
  - apply Z.ltb_ge in L. apply Skip.
    intros d' ta' Dr Cr. inversion Dr; subst. rewrite C in Cr.
    inversion Cr; subst. lia.
Qed.

Lemma upcoming_split now races :
  forall u1 x u2,
    ScheduleUpdater.upcoming_races now races = u1 ++ x :: u2 ->
    exists l1 l2,
      races = l1 ++ fst x :: l2 /\
      ScheduleUpdater.upcoming_races now l1 = u1 /\
      ScheduleUpdater.upcoming_races now l2 = u2.
Proof.
  induction races as [|a races IH]; intros u1 x u2 H; simpl in H.
  - destruct u1; discriminate.
  - assert (Skip : ScheduleUpdater.upcoming_races now races = u1 ++ x :: u2 ->
                   ScheduleUpdater.upcoming_races now [a] = [] ->
                   exists l1 l2,
                     a :: races = l1 ++ fst x :: l2 /\
                     ScheduleUpdater.upcoming_races now l1 = u1 /\
                     ScheduleUpdater.upcoming_races now l2 = u2).
    { intros H' Ha. destruct (IH _ _ _ H') as (l1 & l2 & -> & H1 & H2).
      exists (a :: l1), l2. split; [reflexivity|]. split; [|exact H2].
      change (a :: l1) with ([a] ++ l1).
      clear - Ha H1. simpl in *.
      destruct (race_date a) as [d|]; [|exact H1].
      destruct (clock_reading d) as [ta|]; [|exact H1].
      destruct (Z.ltb now ta); [discriminate|exact H1]. }
    destruct (race_date a) as [d|] eqn:D; [|apply Skip; [exact H|]].
    + destruct (clock_reading d) as [ta|] eqn:C; [|apply Skip; [exact H|]].
      * destruct (Z.ltb now ta) eqn:L; [|apply Skip; [exact H|]].
        -- destruct u1 as [|y u1]; simpl in H; inversion H; subst.
           ++ exists [], races. simpl. auto.
           ++ destruct (IH _ _ _ H2) as (l1 & l2 & -> & H1 & H3).
              exists (a :: l1), l2. simpl. rewrite D, C, L, H1. auto.
        -- simpl. now rewrite D, C, L.
      * simpl. now rewrite D, C.
    + simpl. now rewrite D.
Qed.

Lemma upcoming_agree now races :
  forall u,
    Monitor.upcoming_races now races = Some u ->
    ScheduleUpdater.upcoming_races now races = u.
Proof.
  induction races as [|a races IH]; intros u H; simpl in *.
  - now inversion H.
  - destruct (race_date a) as [[ta|ta|]|]; try discriminate.
    + destruct (Monitor.upcoming_races now races) as [u'|]; [|discriminate].
      simpl. rewrite (IH u' eq_refl).
      destruct (Z.ltb now ta); now inversion H.
    + now apply IH.
Qed.

(** X18.  [get_next_race] of the schedule updater, on every schedule,
    returns the first race, in the order of the schedule, among those
    whose date can be parsed and reads earliest after [now]; a date
    with a UTC offset counts with the reading it states, a date that
    cannot be parsed is passed over.  It returns nothing only when no
    such race exists, and it returns what [get_next_race] of the
    monitor returns whenever that one returns a race. *)
Theorem updater_get_next_race_first_earliest :
  forall (races : list race) (now : Z),
    match ScheduleUpdater.get_next_race races now with
    | Some (r, t) =>
        exists l1 l2,
          races = l1 ++ r :: l2 /\
          reads_after now r t /\
          (forall r' t', In r' l1 -> reads_after now r' t' -> t < t') /\
          (forall r' t', In r' l2 -> reads_after now r' t' -> t <= t')
    | None => forall r t, In r races -> ~ reads_after now r t
    end /\
    (forall x,
        Monitor.get_next_race races now = Some x ->
        ScheduleUpdater.get_next_race races now = Some x).
Proof.
  intros races now. split.
  - unfold ScheduleUpdater.get_next_race.
    pose proof (hd_sort_by_time (ScheduleUpdater.upcoming_races now races))
      as Hd.
    destruct (sort_by_time (ScheduleUpdater.upcoming_races now races))
      as [|[r t] rest]; simpl in Hd; symmetry in Hd.
    + apply earliest_None in Hd. intros r t Hr S.
      assert (I : In (r, t) (ScheduleUpdater.upcoming_races now races))
        by (apply In_upcoming; auto).
      rewrite Hd in I. destruct I.
    + apply earliest_Some in Hd. destruct Hd as (u1 & u2 & U & H1 & H2).
      destruct (upcoming_split now races _ _ _ U) as (l1 & l2 & -> & U1 & U2).
      cbn [fst] in *.
      exists l1, l2. split; [reflexivity|]. split.
      * apply (In_upcoming now (l1 ++ r :: l2) r t). rewrite U.
        apply in_or_app. right. now left.
      * split; intros r' t' Hr' S.
        -- apply (H1 (r', t')). rewrite <- U1. apply In_upcoming. auto.
        -- apply (H2 (r', t')). rewrite <- U2. apply In_upcoming. auto.
  - intros x. unfold Monitor.get_next_race, ScheduleUpdater.get_next_race.
    destruct (Monitor.upcoming_races now races) as [u|] eqn:U; [|discriminate].
    now rewrite (upcoming_agree now races u U).
Qed.

End ScheduleUpdaterFacts.

(** ** The countdown *)

Module CountdownFacts.

Import Countdown.

Local Open Scope Z_scope.

Lemma hours_until_div d : hours_until d = d / 3600000000.
Proof.
  unfold hours_until, floordiv, total_seconds, Qfloor, Qdiv, Qmult, Qinv,
    inject_Z.
  simpl. now rewrite !Z.mul_1_r.
Qed.

Lemma minutes_until_div d :
  minutes_until d = (d mod 3600000000) / 60000000.
Proof.
  unfold minutes_until.
  assert (E : (fmod (total_seconds d) 3600 / 60
               == (d mod 3600000000) # 60000000)%Q).
  { unfold fmod. fold (hours_until d). rewrite hours_until_div.
    rewrite (Z.mod_eq d 3600000000) by lia.
    generalize (d / 3600000000). intros q.
    unfold total_seconds, Qeq, Qminus, Qplus, Qdiv, Qmult, Qinv, Qopp,
      inject_Z.
    cbn [Qnum Qden]. lia. }
  unfold floordiv. rewrite (Qfloor_comp _ _ E). reflexivity.
Qed.

Lemma is_race_day_iff d : is_race_day d = true <-> d < 86400000000.
Proof.
  unfold is_race_day. rewrite negb_true_iff.
  destruct (Qle_bool (24 * 3600) (total_seconds d)) eqn:Q.
  - apply Qle_bool_iff in Q.
    unfold total_seconds, Qle, Qdiv, Qmult, Qinv, inject_Z in Q. simpl in Q.
    split; [discriminate|lia].
  - split; [intros _|reflexivity].
    destruct (Z_lt_le_dec d 86400000000) as [L|L]; [exact L|].
    assert (Q' : Qle_bool (24 * 3600) (total_seconds d) = true).
    { apply Qle_bool_iff.
      unfold total_seconds, Qle, Qdiv, Qmult, Qinv, inject_Z. simpl. lia. }
    congruence.
Qed.

Lemma is_race_weekend_iff d : is_race_weekend d = true <-> d < 259200000000.
Proof.
  unfold is_race_weekend. rewrite negb_true_iff.
  destruct (Qle_bool (72 * 3600) (total_seconds d)) eqn:Q.
  - apply Qle_bool_iff in Q.
    unfold total_seconds, Qle, Qdiv, Qmult, Qinv, inject_Z in Q. simpl in Q.
    split; [discriminate|lia].
  - split; [intros _|reflexivity].
    destruct (Z_lt_le_dec d 259200000000) as [L|L]; [exact L|].
    assert (Q' : Qle_bool (72 * 3600) (total_seconds d) = true).
    { apply Qle_bool_iff.
      unfold total_seconds, Qle, Qdiv, Qmult, Qinv, inject_Z. simpl. lia. }
    congruence.
Qed.

(** X19.  The countdown splits the time until the race, [d]
    microseconds, into whole days, hours below 24 and minutes below 60
    that together are at most [d] and less than a minute short of it;
    the hours in total are the days times 24 plus the hours of the
    countdown.  A race day is always part of a race weekend, and on a
    race day that has not passed the countdown shows no days. *)
Theorem countdown_splits_time :
  forall (d : Z),
    0 <= countdown_hours d < 24 /\
    0 <= minutes_until d < 60 /\
    hours_until d = days_until d * 24 + countdown_hours d /\
    ((days_until d * 24 + countdown_hours d) * 3600000000
     + minutes_until d * 60000000 <= d
     < (days_until d * 24 + countdown_hours d) * 3600000000
       + minutes_until d * 60000000 + 60000000) /\
    (is_race_day d = true -> is_race_weekend d = true) /\
    (is_race_day d = true -> 0 <= d -> days_until d = 0).
Proof.
  intros d. unfold countdown_hours, days_until.
  rewrite minutes_until_div, hours_until_div.
  assert (Hd : d / 86400000000 = d / 3600000000 / 24)
    by (rewrite Z.div_div by lia; reflexivity).
  pose proof (Z.mod_pos_bound (d / 3600000000) 24 ltac:(lia)) as B1.
  pose proof (Z.mod_pos_bound d 3600000000 ltac:(lia)) as B2.
  pose proof (Z.div_mod d 3600000000 ltac:(lia)) as E1.
  pose proof (Z.div_mod (d / 3600000000) 24 ltac:(lia)) as E2.
  pose proof (Z.div_mod (d mod 3600000000) 60000000 ltac:(lia)) as E3.
  pose proof (Z.mod_pos_bound (d mod 3600000000) 60000000 ltac:(lia)) as B3.
  assert (M : 0 <= d mod 3600000000 / 60000000 < 60).
  { split; [apply Z.div_pos; lia|].
    apply Z.div_lt_upper_bound; lia. }
  split; [exact B1|]. split; [exact M|]. split; [lia|]. split; [lia|]. split.
  - rewrite is_race_day_iff, is_race_weekend_iff. lia.
  - rewrite is_race_day_iff. intros H1 H2.
    apply Z.div_small. lia.
Qed.

End CountdownFacts.

(** ** Further instances *)

Module MoreInstances.

Import Terms MoreTerms Evaluator Samples MoreSamples.

Local Open Scope string_scope.

(** X2 at a call in which every step completes. *)
Lemma processed_file_is_not_offered_again_witness :
  ok_call = (Returns true, state_after ok_call, effects_of ok_call) /\
  (In "bahrain_results.csv" (processed_races (state_after ok_call)) /\
   Startup.load_processed_races true (state_after ok_call)
   = processed_races (state_after ok_call) /\
   ~ In "bahrain_results.csv"
        (fst (detect_new_race_files default_config 100 (state_after ok_call)))
   /\
   ~ In "bahrain_results.csv"
        (fst (detect_new_race_files default_config 100
                (Startup.restart true (state_after ok_call))))).
Proof.
  split; [reflexivity|].
  apply (ProcessMore.processed_file_is_not_offered_again
           default_config default_config env_ok bahrain_state
           (state_after ok_call) "bahrain_results.csv"
           (effects_of ok_call) 100).
  reflexivity.
Defined.

(** X3 at the same call, which archived the file. *)
Lemma archived_file_is_not_processed_again_witness :
  ok_call = (Returns true, state_after ok_call, effects_of ok_call) /\
  In (Archived "bahrain_results.csv"
               "20250316_180000_Bahrain_GP_bahrain_results.csv")
     (effects_of ok_call) /\
  process_new_race_results default_config env_move_fails
                           (state_after ok_call) "bahrain_results.csv"
  = (Returns false, state_after ok_call, [Processing "bahrain_results.csv"]).
Proof.
  assert (A : In (Archived "bahrain_results.csv"
                           "20250316_180000_Bahrain_GP_bahrain_results.csv")
                 (effects_of ok_call)).
  { right. right. right. left. reflexivity. }
  split; [reflexivity|]. split; [exact A|].
  apply (ProcessMore.archived_file_is_not_processed_again
           default_config default_config env_ok env_move_fails bahrain_state
           (state_after ok_call) "bahrain_results.csv"
           "20250316_180000_Bahrain_GP_bahrain_results.csv"
           (Returns true) (effects_of ok_call)).
  - reflexivity.
  - exact A.
Defined.

(** X20 at recommendations whose race column is named [race_name]:
    the check on the one file of the scan is left by an exception. *)
Lemma unusable_recommendations_end_the_check_witness :
  unusable_recommendations lowercase_state /\
  fst (detect_new_race_files default_config 100 lowercase_state)
  = ["bahrain_results.csv"] /\
  returned (run_single_check default_config (fun _ => env_ok) 100
                             lowercase_state)
  = Raises /\
  state_after (run_single_check default_config (fun _ => env_ok) 100
                                lowercase_state)
  = lowercase_state.
Proof.
  assert (U : unusable_recommendations lowercase_state).
  { right. eexists. eexists. split; [reflexivity|].
    intros I. repeat (destruct I as [I|I]; [discriminate|]). exact I. }
  split; [exact U|]. split; [reflexivity|].
  pose proof (ProcessMore.unusable_recommendations_end_the_check
                default_config (fun _ => env_ok) 100 lowercase_state U)
    as (_ & S & _ & X).
  split.
  - exact (proj1 (X [] "bahrain_results.csv" [] eq_refl eq_refl eq_refl)).
  - exact S.
Defined.

(** X4 at a master log that holds a bet of another race. *)
Lemma process_leaves_other_races_witness :
  NoDup (map key (existing_log saudi_logged_state)) /\
  filter (fun r => negb (String.eqb (Race_Name r) "Bahrain GP"))
         (existing_log
            (state_after
               (process_new_race_results default_config env_ok
                  saudi_logged_state "bahrain_results.csv")))
  = filter (fun r => negb (String.eqb (Race_Name r) "Bahrain GP"))
           (existing_log saudi_logged_state).
Proof.
  assert (N : NoDup (map key (existing_log saudi_logged_state))).
  { constructor; [intros []|constructor]. }
  split; [exact N|].
  exact (ProcessMore.process_leaves_other_races
           default_config env_ok saudi_logged_state "bahrain_results.csv" N).
Defined.

(** X9 at a simulator with a stake of 10 and odds of 5. *)
Lemma simulate_bets_profit_bound_witness :
  (0 <= BetSimulator.bet_amount bahrain_simulator)%Q /\
  (forall b, In b (BetSimulator.betting_df bahrain_simulator) ->
             (1 <= b_Quote b)%Q) /\
  (- (BetSimulator.bet_amount bahrain_simulator
      * inject_Z
          (Z.of_nat (losses (BetSimulator.simulation_log bahrain_simulator 3))))
   <= BetSimulator.simulate_bets bahrain_simulator 3)%Q.
Proof.
  assert (H1 : (0 <= BetSimulator.bet_amount bahrain_simulator)%Q)
    by (unfold Qle; simpl; lia).
  assert (H2 : forall b, In b (BetSimulator.betting_df bahrain_simulator) ->
                         (1 <= b_Quote b)%Q).
  { intros b [<-|[<-|[]]]; unfold Qle; simpl; lia. }
  split; [exact H1|]. split; [exact H2|].
  exact (proj2 (proj2 (SimulatorMore.simulate_bets_profit_bound
                         bahrain_simulator 3 H1 H2))).
Defined.

(** X14 at a schedule whose next race is eleven days away. *)
Lemma results_due_only_after_start_witness :
  Monitor.get_next_race naive_schedule early_march
  = Some (bahrain_race, 1742137200000000%Z) /\
  Policy.should_process_results Monitor.default_config 1742137200000000
                                early_march = false.
Proof.
  split; [reflexivity|].
  exact (proj1 (proj2 (PolicyFacts.results_due_only_after_start
                         Monitor.default_config naive_schedule
                         early_march early_march bahrain_race
                         1742137200000000%Z eq_refl))).
Defined.

(** X15 at the default configuration, 24 hours before the start. *)
Lemma predictions_due_implies_odds_due_witness :
  In (Monitor.prediction_hours_before_race Monitor.default_config)
     (Monitor.odds_fetch_hours_before_race Monitor.default_config) /\
  Monitor.should_generate_predictions Monitor.default_config race_start
    (race_start - 24 * Monitor.hour) = true /\
  Monitor.should_fetch_odds Monitor.default_config race_start
    (race_start - 24 * Monitor.hour) = true.
Proof.
  assert (I : In (Monitor.prediction_hours_before_race Monitor.default_config)
                 (Monitor.odds_fetch_hours_before_race
                    Monitor.default_config)).
  { right. right. left. reflexivity. }
  assert (P : Monitor.should_generate_predictions Monitor.default_config
                race_start (race_start - 24 * Monitor.hour) = true)
    by reflexivity.
  split; [exact I|]. split; [exact P|].
  exact (PolicyFacts.predictions_due_implies_odds_due
           Monitor.default_config race_start
           (race_start - 24 * Monitor.hour) I P).
Defined.

End MoreInstances.
